(** * Immutable TSSP table files: reference counting, stop flag, file sets

    A shallow embedding of [engine/immutable/tssp_file.go]:
    the [tsspFile] wrapper around a [TSSPFileReader] (stop flag, user
    reference counter, wait-group, LRU token) and the ordered collection
    [TSSPFiles] (binary-search lookup, fully-compacted test).

    Conventions.
    - Go's fixed-width integers are [Z] with the wrap-around of the
      [sync/atomic] additions written out.
    - A method that can trap returns an [outcome]: a normal return, a panic,
      or a goroutine parked forever.
    - Runs are sequential: one call ends before the next begins.  The
      methods of [tsspFile] that take [f.mu] release it on every exit path
      ([Ref], [Unref], [Stop] and the eviction-list methods never take it),
      and the eviction-list methods that take a level lock release it
      before they return, so every lock is free between two calls; locks
      are not part of the state.  Log calls are not modelled. *)

From stdpp Require Import base list strings pretty.
From Stdlib Require Import ZArith Lia.
From Stdlib.Strings Require Import Byte.

Local Open Scope Z_scope.

(** ** Machine integers *)

Definition wrap_int32 (z : Z) : Z := (z + 2 ^ 31) mod 2 ^ 32 - 2 ^ 31.
Definition wrap_uint32 (z : Z) : Z := z mod 2 ^ 32.

Definition max_int32 : Z := 2 ^ 31 - 1.
Definition min_int32 : Z := - 2 ^ 31.

Definition int32_range (z : Z) : Prop := min_int32 <= z <= max_int32.
Definition uint32_range (z : Z) : Prop := 0 <= z < 2 ^ 32.

(** [atomic.AddInt32(&x, delta)] and [atomic.AddUint32(&x, delta)]: the new
    value, which is both stored and returned. *)
Definition atomic_AddInt32 (x delta : Z) : Z := wrap_int32 (x + delta).
Definition atomic_AddUint32 (x delta : Z) : Z := wrap_uint32 (x + delta).

(** ** Outcomes of a call *)

Inductive outcome (A : Type) : Type :=
| Ret (a : A)            (* the call returns *)
| Panic (msg : string)   (* the process traps *)
| Blocked.               (* the goroutine waits for ever *)

Arguments Ret {A} a.
Arguments Panic {A} msg.
Arguments Blocked {A}.

#[export] Instance outcome_ret : MRet outcome := fun A a => Ret a.

#[export] Instance outcome_bind : MBind outcome := fun A B k m =>
  match m with
  | Ret a => k a
  | Panic msg => Panic msg
  | Blocked => Blocked
  end.

(** Go slice indexing [s[i]] with an [int] index: out of range traps. *)
Definition index {A : Type} (s : list A) (i : Z) : outcome A :=
  if i <? 0 then Panic "index out of range"
  else match s !! Z.to_nat i with
       | Some x => Ret x
       | None => Panic "index out of range"
       end.

(** ** Errors *)

Inductive errno : Type := ENOENT | EACCES | EBUSY | EIO.

(** Error values.  [errFileClosed] is the package's sentinel;
    [errRemoveFail name err] is built by a function of the package that
    lives in another file, and is kept as the pair of its arguments. *)
Inductive error : Type :=
| errFileClosed                                   (* "tssp file closed" *)
| Errorf (msg : string)                           (* fmt.Errorf *)
| PathError (op path : string) (e : errno)        (* os.PathError *)
| errRemoveFail (name : string) (cause : error).

(** [os.IsNotExist]. *)
Definition os_IsNotExist (err : error) : bool :=
  match err with
  | PathError _ _ ENOENT => true
  | _ => false
  end.

(** ** File names *)

Module TSSPFileName.
Record t : Type := mk {
  seq : Z;       (* uint64 *)
  level : Z;     (* uint16 *)
  merge : Z;     (* uint16 *)
  extent : Z;    (* uint16 *)
  order : bool
}.
End TSSPFileName.

(** ** Declarations of the package that live in other files *)

(** The data types the read operations exchange with the reader, and
    the method [segmentCount] on a non-nil chunk meta. *)
Class Decls : Type := {
  MetaIndex_t : Type;
  ChunkMeta_t : Type;
  segmentCount : ChunkMeta_t -> Z;
  TimeRange : Type;
  record_Record : Type;
  record_Field : Type;
  ReadContext : Type;
  TombstoneFile : Type
}.

(** The [TSSPFileReader] interface, restricted to the methods [tsspFile]
    calls.  A pointer is an [option] ([None] is [nil]); a scratch buffer
    passed by pointer is passed by value.  [MetaIndex_t] and [ChunkMeta_t]
    are the package's types [MetaIndex] and [ChunkMeta], whose names the
    methods below keep. *)
Class TSSPFileReader `{Decls} : Type := {
  Reader : Type;
  reader_Path : Reader -> string;
  reader_Name : Reader -> string;
  reader_InMemSize : Reader -> Z;
  reader_Close : Reader -> Reader * option error;
  reader_MetaIndex :
    Reader -> Z -> TimeRange -> (Z * option MetaIndex_t * option error) * Reader;
  reader_MetaIndexAt :
    Reader -> Z -> (option MetaIndex_t * option error) * Reader;
  reader_ChunkMeta :
    Reader -> Z -> Z -> Z -> Z -> Z -> option ChunkMeta_t -> list byte ->
    (option ChunkMeta_t * option error) * Reader;
  reader_ChunkMetaAt :
    Reader -> Z -> (option ChunkMeta_t * option error) * Reader;
  reader_ReadData :
    Reader -> Z -> Z -> list byte -> (list byte * option error) * Reader;
  reader_ReadChunkMetaData :
    Reader -> Z -> option MetaIndex_t -> list ChunkMeta_t ->
    (list ChunkMeta_t * option error) * Reader;
  reader_ReadAt :
    Reader -> option ChunkMeta_t -> Z -> option record_Record ->
    option ReadContext -> (option record_Record * option error) * Reader;
  reader_Contains : Reader -> Z -> (bool * option error) * Reader;
  reader_ContainsValue :
    Reader -> Z -> TimeRange -> (bool * option error) * Reader;
  reader_ContainsTime : Reader -> TimeRange -> (bool * option error) * Reader;
  reader_MinMaxTime : Reader -> (Z * Z * option error) * Reader;
  reader_BlockHeader :
    Reader -> option ChunkMeta_t -> list record_Field ->
    (list record_Field * option error) * Reader;
  reader_ReadMetaBlock :
    Reader -> Z -> Z -> Z -> Z -> Z -> list byte ->
    (list byte * option error) * Reader;
  reader_ReadDataBlock :
    Reader -> Z -> Z -> list byte -> (list byte * option error) * Reader
}.

(** The process-wide collaborators of [Remove]: the file-system layer
    ([fileops.Remove], which unlinks under the advisory lock) and the
    per-level eviction registry ([addMemSize], [levelName], and the
    [container/list] removal on a level's LRU list). *)
Class Runtime : Type := {
  FS : Type;
  fileops_Remove : FS -> string -> string -> FS * option error;
  Registry : Type;
  Element : Type;
  levelName : Z -> string;
  addMemSize : Registry -> string -> Z -> Z -> Z -> Registry;
  list_Remove : Registry -> Z -> Element -> Registry
}.

(** ** The table file *)

Section File.
Context {D : Decls} {RD : TSSPFileReader} {RT : Runtime}.

Record tsspFile : Type := mkFile {
  wg : nat;                   (* sync.WaitGroup counter *)
  name : TSSPFileName.t;
  ref : Z;                    (* int32 *)
  flag : Z;                   (* uint32; flag > 0: the file needs closing *)
  lock : option string;       (* *string *)
  memEle : option Element;    (* LRU node *)
  reader : Reader
}.

Definition set_wg (f : tsspFile) (n : nat) : tsspFile :=
  mkFile n (name f) (ref f) (flag f) (lock f) (memEle f) (reader f).
Definition set_ref (f : tsspFile) (r : Z) : tsspFile :=
  mkFile (wg f) (name f) r (flag f) (lock f) (memEle f) (reader f).
Definition set_flag (f : tsspFile) (v : Z) : tsspFile :=
  mkFile (wg f) (name f) (ref f) v (lock f) (memEle f) (reader f).
Definition set_memEle (f : tsspFile) (e : option Element) : tsspFile :=
  mkFile (wg f) (name f) (ref f) (flag f) (lock f) e (reader f).
Definition set_reader (f : tsspFile) (r : Reader) : tsspFile :=
  mkFile (wg f) (name f) (ref f) (flag f) (lock f) (memEle f) r.

(** What [OpenTSSPFile] returns once the reader [fr] is open. *)
Definition OpenTSSPFile_result (fileName : TSSPFileName.t) (fr : Reader)
    (lockPath : option string) : tsspFile :=
  mkFile 0%nat fileName 1 0 lockPath None fr.

(** [sync.WaitGroup]: [Add(1)], [Done()] and [Wait()] on the counter. *)
Definition wg_Add1 (f : tsspFile) : tsspFile := set_wg f (S (wg f)).

Definition wg_Done (f : tsspFile) : outcome tsspFile :=
  match wg f with
  | O => Panic "sync: negative WaitGroup counter"
  | S n => Ret (set_wg f n)
  end.

Definition wg_Wait (f : tsspFile) : outcome tsspFile :=
  match wg f with
  | O => Ret f
  | S _ => Blocked
  end.

Definition stopped (f : tsspFile) : bool := flag f >? 0.

Definition Stop (f : tsspFile) : tsspFile :=
  set_flag f (atomic_AddUint32 (flag f) 1).

Definition Inuse (f : tsspFile) : bool := ref f >? 1.

Definition Ref (f : tsspFile) : outcome tsspFile :=
  if stopped f then Ret f
  else
    let f := set_ref f (atomic_AddInt32 (ref f) 1) in
    Ret (wg_Add1 f).

Definition Unref (f : tsspFile) : outcome tsspFile :=
  let f := set_ref f (atomic_AddInt32 (ref f) (-1)) in
  if ref f <=? 0 then
    if stopped f then Ret f
    else Panic "file closed"
  else wg_Done f.

Definition LevelAndSequence (f : tsspFile) : Z * Z :=
  (TSSPFileName.level (name f), TSSPFileName.seq (name f)).

Definition FileNameExtend (f : tsspFile) : Z := TSSPFileName.extent (name f).

Definition Path (f : tsspFile) : string :=
  if stopped f then "" else reader_Path (reader f).

Definition Name (f : tsspFile) : string :=
  if stopped f then "" else reader_Name (reader f).

(** ** Read operations *)

(** [return f.reader.M(...)]: the reader's result is the method's result,
    and the reader keeps the state the call left it in. *)
Definition forward {A : Type} (f : tsspFile) (r : A * Reader)
    : outcome (A * tsspFile) :=
  Ret (r.1, set_reader f r.2).

Definition MetaIndex (f : tsspFile) (id : Z) (tr : TimeRange)
    : outcome ((Z * option MetaIndex_t * option error) * tsspFile) :=
  if stopped f then Ret ((0, None, Some errFileClosed), f)
  else forward f (reader_MetaIndex (reader f) id tr).

Definition MetaIndexAt (f : tsspFile) (idx : Z)
    : outcome ((option MetaIndex_t * option error) * tsspFile) :=
  if stopped f then Ret ((None, Some errFileClosed), f)
  else forward f (reader_MetaIndexAt (reader f) idx).

Definition ChunkMeta (f : tsspFile) (id offset size itemCount metaIdx : Z)
    (dst : option ChunkMeta_t) (buffer : list byte)
    : outcome ((option ChunkMeta_t * option error) * tsspFile) :=
  if stopped f then Ret ((None, Some errFileClosed), f)
  else forward f
         (reader_ChunkMeta (reader f) id offset size itemCount metaIdx dst buffer).

Definition Read (f : tsspFile) (id : Z) (tr : TimeRange)
    (dst : option record_Record)
    : outcome ((option record_Record * option error) * tsspFile) :=
  Panic "impl me".

Definition ReadData (f : tsspFile) (offset size : Z) (dst : list byte)
    : outcome ((list byte * option error) * tsspFile) :=
  if stopped f then Ret (([], Some errFileClosed), f)
  else forward f (reader_ReadData (reader f) offset size dst).

Definition ReadChunkMetaData (f : tsspFile) (metaIdx : Z)
    (m : option MetaIndex_t) (dst : list ChunkMeta_t)
    : outcome ((list ChunkMeta_t * option error) * tsspFile) :=
  if stopped f then Ret ((dst, Some errFileClosed), f)
  else forward f (reader_ReadChunkMetaData (reader f) metaIdx m dst).

(** [cm.segmentCount()] through the pointer [cm]. *)
Definition ptr_segmentCount (cm : option ChunkMeta_t) : outcome Z :=
  match cm with
  | Some m => Ret (segmentCount m)
  | None => Panic "invalid memory address or nil pointer dereference"
  end.

(** Both branches of the range test evaluate [cm.segmentCount()] before
    they return (the test itself when [segment >= 0], the error message
    otherwise), so it is evaluated once, up front. *)
Definition ReadAt (f : tsspFile) (cm : option ChunkMeta_t) (segment : Z)
    (dst : option record_Record) (decs : option ReadContext)
    : outcome ((option record_Record * option error) * tsspFile) :=
  if stopped f then Ret ((None, Some errFileClosed), f)
  else
    n ← ptr_segmentCount cm;
    if (segment <? 0) || (segment >=? n) then
      let err := Errorf ("segment index " +:+ pretty segment +:+
                         " out of range " +:+ pretty n) in
      Ret ((None, Some err), f)
    else forward f (reader_ReadAt (reader f) cm segment dst decs).

Definition ChunkMetaAt (f : tsspFile) (index : Z)
    : outcome ((option ChunkMeta_t * option error) * tsspFile) :=
  if stopped f then Ret ((None, Some errFileClosed), f)
  else forward f (reader_ChunkMetaAt (reader f) index).

Definition Contains (f : tsspFile) (id : Z)
    : outcome ((bool * option error) * tsspFile) :=
  if stopped f then Ret ((false, Some errFileClosed), f)
  else forward f (reader_Contains (reader f) id).

Definition ContainsValue (f : tsspFile) (id : Z) (tr : TimeRange)
    : outcome ((bool * option error) * tsspFile) :=
  if stopped f then Ret ((false, Some errFileClosed), f)
  else forward f (reader_ContainsValue (reader f) id tr).

Definition ContainsTime (f : tsspFile) (tr : TimeRange)
    : outcome ((bool * option error) * tsspFile) :=
  if stopped f then Ret ((false, Some errFileClosed), f)
  else forward f (reader_ContainsTime (reader f) tr).

Definition Delete (f : tsspFile) (ids : list Z)
    : outcome (option error * tsspFile) :=
  Panic "impl me".

Definition DeleteRange (f : tsspFile) (ids : list Z) (min max : Z)
    : outcome (option error * tsspFile) :=
  Panic "impl me".

Definition HasTombstones (f : tsspFile) : outcome (bool * tsspFile) :=
  Panic "impl me".

Definition TombstoneFiles (f : tsspFile)
    : outcome (list TombstoneFile * tsspFile) :=
  Panic "impl me".

Definition MinMaxTime (f : tsspFile)
    : outcome ((Z * Z * option error) * tsspFile) :=
  if stopped f then Ret ((0, 0, Some errFileClosed), f)
  else forward f (reader_MinMaxTime (reader f)).

Definition BlockHeader (f : tsspFile) (meta : option ChunkMeta_t)
    (dst : list record_Field)
    : outcome ((list record_Field * option error) * tsspFile) :=
  forward f (reader_BlockHeader (reader f) meta dst).

Definition ReadMetaBlock (f : tsspFile) (metaIdx id offset size count : Z)
    (dst : list byte)
    : outcome ((list byte * option error) * tsspFile) :=
  forward f (reader_ReadMetaBlock (reader f) metaIdx id offset size count dst).

Definition ReadDataBlock (f : tsspFile) (offset size : Z) (dst : list byte)
    : outcome ((list byte * option error) * tsspFile) :=
  forward f (reader_ReadDataBlock (reader f) offset size dst).

(** ** Removal *)

(** The part of the process state [Remove] acts on: the file system, the
    eviction registry, and the log of the paths handed to [fileops.Remove]
    (most recent first). *)
Record World : Type := mkWorld {
  disk : FS;
  registry : Registry;
  removals : list string
}.

Definition RemoveFromEvictList (f : tsspFile) (level : Z) (reg : Registry)
    : tsspFile * Registry :=
  match memEle f with
  | Some e => (set_memEle f None, list_Remove reg level e)
  | None => (f, reg)
  end.

(** The tail of [Remove], after the unlink went through (or found no
    file): memory accounting and eviction-list removal. *)
Definition Remove_evict (f : tsspFile) (w : World) (memSize level : Z)
    (order : bool) : option error * tsspFile * World :=
  let evict := memSize >? 0 in
  if evict then
    let reg :=
      if order
      then addMemSize (registry w) (levelName level) (- memSize) (- memSize) 0
      else addMemSize (registry w) (levelName level) (- memSize) 0 (- memSize)
    in
    let '(f, reg) := RemoveFromEvictList f level reg in
    (None, f, mkWorld (disk w) reg (removals w))
  else (None, f, w).

(** The registry after [Remove]'s accounting for a file of [memSize] cached
    bytes whose LRU node is [e]. *)
Definition accounted (reg : Registry) (level memSize : Z) (order : bool)
    (e : option Element) : Registry :=
  let reg :=
    if order
    then addMemSize reg (levelName level) (- memSize) (- memSize) 0
    else addMemSize reg (levelName level) (- memSize) 0 (- memSize) in
  match e with
  | Some el => list_Remove reg level el
  | None => reg
  end.

(** [*f.lock] *)
Definition deref_lock (f : tsspFile) : outcome string :=
  match lock f with
  | Some s => Ret s
  | None => Panic "invalid memory address or nil pointer dereference"
  end.

Definition Remove (f : tsspFile) (w : World)
    : outcome (option error * tsspFile * World) :=
  let f := set_flag f (atomic_AddUint32 (flag f) 1) in
  let f := set_ref f (atomic_AddInt32 (ref f) (-1)) in
  if ref f =? 0 then
    f ← wg_Wait f;
    let name_ := reader_Path (reader f) in
    let memSize := reader_InMemSize (reader f) in
    let level := TSSPFileName.level (name f) in
    let order := TSSPFileName.order (name f) in
    let f := set_reader f (reader_Close (reader f)).1 in
    lock_ ← deref_lock f;
    let '(disk', err) := fileops_Remove (disk w) name_ lock_ in
    let w := mkWorld disk' (registry w) (name_ :: removals w) in
    match err with
    | Some e =>
        if negb (os_IsNotExist e)
        then Ret (Some (errRemoveFail name_ e), f, w)
        else Ret (Remove_evict f w memSize level order)
    | None => Ret (Remove_evict f w memSize level order)
    end
  else Ret (None, f, w).

(** ** Call sequences on one file *)

Inductive op : Type := OpRef | OpUnref | OpRemove.

(** One call; the error [Remove] returns goes to its caller and is not
    part of the state. *)
Definition exec (o : op) (s : tsspFile * World) : outcome (tsspFile * World) :=
  match o with
  | OpRef => f ← Ref s.1; Ret (f, s.2)
  | OpUnref => f ← Unref s.1; Ret (f, s.2)
  | OpRemove => r ← Remove s.1 s.2; Ret (r.1.2, r.2)
  end.

Fixpoint run (ops : list op) (s : tsspFile * World)
    : outcome (tsspFile * World) :=
  match ops with
  | [] => Ret s
  | o :: ops' => s' ← exec o s; run ops' s'
  end.

(** Every prefix releases no more references than it took. *)
Fixpoint balanced (held : nat) (ops : list op) : bool :=
  match ops with
  | [] => true
  | OpRef :: ops' => balanced (S held) ops'
  | OpUnref :: ops' =>
      match held with
      | O => false
      | S held' => balanced held' ops'
      end
  | OpRemove :: ops' => balanced held ops'
  end.

(** References held by readers after the calls [ops], counting every [Ref]
    and every [Unref]. *)
Fixpoint readers (ops : list op) : Z :=
  match ops with
  | [] => 0
  | OpRef :: ops' => readers ops' + 1
  | OpUnref :: ops' => readers ops' - 1
  | OpRemove :: ops' => readers ops'
  end.

(** No [Remove] among [ops]. *)
Definition no_Remove (ops : list op) : bool :=
  forallb (fun o => match o with OpRemove => false | _ => true end) ops.

(** ** The file set *)

Record TSSPFiles : Type := mkFiles {
  files_ref : Z;
  closing : Z;
  files : list tsspFile
}.

Definition Len (f : TSSPFiles) : Z := Z.of_nat (length (files f)).

Definition Less (f : TSSPFiles) (i j : Z) : outcome bool :=
  fi ← index (files f) i;
  fj ← index (files f) j;
  let iSeq := (LevelAndSequence fi).2 in
  let jSeq := (LevelAndSequence fj).2 in
  let iExt := FileNameExtend fi in
  let jExt := FileNameExtend fj in
  if negb (iSeq =? jSeq) then Ret (iSeq <? jSeq)
  else Ret (iExt <? jExt).

(** [sort.IsSorted]: [for i := n - 1; i > 0; i-- { if Less(i, i-1) { return
    false } }; return true]. *)
Fixpoint IsSorted_from (f : TSSPFiles) (i : nat) : outcome bool :=
  match i with
  | O => Ret true
  | S j =>
      b ← Less f (Z.of_nat (S j)) (Z.of_nat j);
      if b : bool then Ret false else IsSorted_from f j
  end.

Definition sort_IsSorted (f : TSSPFiles) : outcome bool :=
  IsSorted_from f (Z.to_nat (Len f - 1)).

(** Sequences never decrease along the slice: what the binary search of
    [fileIndex] relies on. *)
Definition seq_sorted (fs : list tsspFile) : Prop :=
  forall (i j : nat) (x y : tsspFile),
    (i <= j)%nat -> fs !! i = Some x -> fs !! j = Some y ->
    (LevelAndSequence x).2 <= (LevelAndSequence y).2.

(** The loop of [fullCompacted] over [files[1:]], with its flag. *)
Fixpoint fullCompacted_loop (lv seq : Z) (rest : list tsspFile)
    (sameLeve : bool) : bool :=
  match rest with
  | [] => sameLeve
  | fi :: rest' =>
      if sameLeve then
        let '(level, curSeq) := LevelAndSequence fi in
        fullCompacted_loop lv seq rest' ((lv =? level) && (curSeq =? seq))
      else sameLeve
  end.

Definition fullCompacted (f : TSSPFiles) : bool :=
  if Z.of_nat (length (files f)) <=? 1 then true
  else
    match files f with
    | [] => true
    | f0 :: rest =>
        let '(lv, seq) := LevelAndSequence f0 in
        fullCompacted_loop lv seq rest true
    end.

(** The binary search of [fileIndex], [for left < right { ... }], run for at
    most [fuel] rounds; it yields [(idx, left)] as the loop leaves them.
    Go's [/] on [int] truncates towards zero. *)
Fixpoint search (fuel : nat) (fs : list tsspFile) (seq left_ right_ : Z)
    : outcome (Z * Z) :=
  if left_ <? right_ then
    match fuel with
    | O => Blocked
    | S fuel' =>
        let mid := (left_ + right_) `quot` 2 in
        fm ← index fs mid;
        let n := (LevelAndSequence fm).2 in
        if seq =? n then Ret (mid, left_)
        else if seq <? n then search fuel' fs seq left_ mid
        else search fuel' fs seq (mid + 1) right_
    end
  else Ret (-1, left_).

(** [for i := idx; i >= 0; i-- { ... }]: [Some i] is [return i], [None]
    leaves the loop. *)
Fixpoint scan_down (fs : list tsspFile) (seq : Z) (path : string) (i : nat)
    : outcome (option Z) :=
  fi ← index fs (Z.of_nat i);
  if negb ((LevelAndSequence fi).2 =? seq) then Ret None
  else if String.eqb (Path fi) path then Ret (Some (Z.of_nat i))
  else match i with
       | O => Ret None
       | S j => scan_down fs seq path j
       end.

(** [for i := idx + 1; i < f.Len(); i++ { ... }] over [rest = files[i:]]. *)
Fixpoint scan_up (seq : Z) (path : string) (rest : list tsspFile) (i : Z)
    : option Z :=
  match rest with
  | [] => None
  | fi :: rest' =>
      if negb ((LevelAndSequence fi).2 =? seq) then None
      else if String.eqb (Path fi) path then Some i
      else scan_up seq path rest' (i + 1)
  end.

(** Each round of the search shrinks [right - left], so [len(f.files)]
    rounds are enough. *)
Definition fileIndex (f : TSSPFiles) (tbl : tsspFile) : outcome Z :=
  if Z.of_nat (length (files f)) =? 0 then Ret (-1)
  else
    let seq := (LevelAndSequence tbl).2 in
    '(idx, left_) ← search (length (files f)) (files f) seq 0 (Len f - 1);
    found ←
      (if negb (idx =? -1) then
         d ← scan_down (files f) seq (Path tbl) (Z.to_nat idx);
         match d with
         | Some i => Ret (Some i)
         | None =>
             Ret (scan_up seq (Path tbl)
                    (drop (Z.to_nat (idx + 1)) (files f)) (idx + 1))
         end
       else Ret None);
    match found with
    | Some i => Ret i
    | None =>
        fl ← index (files f) left_;
        if String.eqb (Path fl) (Path tbl) then Ret left_ else Ret (-1)
    end.

End File.

(** ** A simulated reader, file system and registry

    Small executable stand-ins for the collaborators, used to run the model
    on concrete files. *)

Module Sim.

#[export] Instance decls : Decls := {|
  MetaIndex_t := Z;
  ChunkMeta_t := list (Z * Z);      (* one (min, max) time pair per segment *)
  segmentCount := fun cm => Z.of_nat (length cm);
  TimeRange := Z * Z;
  record_Record := list Z;
  record_Field := string;
  ReadContext := unit;
  TombstoneFile := string
|}.

(** A reader that counts the calls forwarded to it. *)
Record reader_t : Type := mkReader {
  r_path : string;
  r_inMem : Z;
  r_closed : bool;
  r_calls : nat
}.

Definition called (r : reader_t) : reader_t :=
  mkReader (r_path r) (r_inMem r) (r_closed r) (S (r_calls r)).

#[export] Instance sim_reader : TSSPFileReader := {|
  Reader := reader_t;
  reader_Path := r_path;
  reader_Name := r_path;
  reader_InMemSize := r_inMem;
  reader_Close := fun r => (mkReader (r_path r) (r_inMem r) true (r_calls r), None);
  reader_MetaIndex := fun r _ _ => ((0, None, None), called r);
  reader_MetaIndexAt := fun r _ => ((None, None), called r);
  reader_ChunkMeta := fun r _ _ _ _ _ dst _ => ((dst, None), called r);
  reader_ChunkMetaAt := fun r _ => ((None, None), called r);
  reader_ReadData := fun r _ _ dst => ((dst, None), called r);
  reader_ReadChunkMetaData := fun r _ _ dst => ((dst, None), called r);
  reader_ReadAt := fun r _ _ dst _ => ((dst, None), called r);
  reader_Contains := fun r _ => ((true, None), called r);
  reader_ContainsValue := fun r _ _ => ((true, None), called r);
  reader_ContainsTime := fun r _ => ((true, None), called r);
  reader_MinMaxTime := fun r => ((0, 0, None), called r);
  reader_BlockHeader := fun r _ dst => ((dst, None), called r);
  reader_ReadMetaBlock := fun r _ _ _ _ _ dst => ((dst, None), called r);
  reader_ReadDataBlock := fun r _ _ dst => ((dst, None), called r)
|}.

(** A file system: the paths present, and whether it is mounted
    read-only. *)
Record fs_t : Type := mkFs {
  present : list string;
  readonly : bool
}.

Definition unlink (fs : fs_t) (path lock_ : string) : fs_t * option error :=
  if readonly fs then (fs, Some (PathError "remove" path EACCES))
  else if bool_decide (path ∈ present fs)
  then (mkFs (filter (fun p => p ≠ path) (present fs)) false, None)
  else (fs, Some (PathError "remove" path ENOENT)).

(** A one-level registry: the three counters and the LRU list. *)
Record registry_t : Type := mkRegistry {
  total_bytes : Z;
  order_bytes : Z;
  unorder_bytes : Z;
  lru : list nat
}.

#[export] Instance sim_runtime : Runtime := {|
  FS := fs_t;
  fileops_Remove := unlink;
  Registry := registry_t;
  Element := nat;
  levelName := fun level => "level" +:+ pretty level;
  addMemSize := fun reg _ t o u =>
    mkRegistry (total_bytes reg + t) (order_bytes reg + o)
               (unorder_bytes reg + u) (lru reg);
  list_Remove := fun reg _ e =>
    mkRegistry (total_bytes reg) (order_bytes reg) (unorder_bytes reg)
               (filter (fun x => x ≠ e) (lru reg))
|}.

(** The file [path] with sequence [seq], level [level] and extent [ext],
    as [OpenTSSPFile] returns it. *)
Definition file (path : string) (seq level ext : Z) : tsspFile :=
  OpenTSSPFile_result (TSSPFileName.mk seq level 0 ext true)
    (mkReader path 0 false 0) (Some "/data/lock").

(** The same file with [size] bytes cached and LRU node [e]. *)
Definition cached_file (path : string) (seq level ext size : Z) (e : nat)
    : tsspFile :=
  mkFile 0%nat (TSSPFileName.mk seq level 0 ext true) 1 0 (Some "/data/lock")
    (Some e) (mkReader path size false 0).

Definition world (paths : list string) (ro : bool) (reg : registry_t) : World :=
  mkWorld (mkFs paths ro) reg [].

Definition set_of (fs : list tsspFile) : TSSPFiles := mkFiles 1 0 fs.

End Sim.


(** * The rest of the file

    The remaining methods of [TSSPFiles] and [tsspFile], the compact-group
    pool, and the collaborators they need beyond those above. *)

Definition wrap_int64 (z : Z) : Z := (z + 2 ^ 63) mod 2 ^ 64 - 2 ^ 63.
Definition atomic_AddInt64 (x delta : Z) : Z := wrap_int64 (x + delta).

(** Further methods of the reader interface. *)
Class TSSPFileReaderMore `{TSSPFileReader} : Type := {
  reader_Ref : Reader -> Reader;
  reader_Unref : Reader -> Reader;
  reader_FreeMemory : Reader -> Z * Reader;
  reader_LoadIntoMemory : Reader -> option error * Reader
}.

(** Further process-wide collaborators: the background queue
    [nodeTableStoreGC], [PushFront] on a level's LRU list, and the
    temporary-file test on a base name. *)
Class RuntimeMore `{TSSPFileReader} `{Runtime} : Type := {
  GCQueue : Type;
  nodeTableStoreGC_Add : GCQueue -> bool -> tsspFile -> GCQueue;
  list_PushFront : Registry -> Z -> tsspFile -> Registry * Element;
  IsTempleFile : string -> bool;
  filepath_Base : string -> string
}.

Section FileSet.
Context {D : Decls} {RD : TSSPFileReader} {RT : Runtime}.

Definition NewTSSPFiles : TSSPFiles := mkFiles 1 0 [].

(** [f.files[i], f.files[j] = f.files[j], f.files[i]]: both right-hand
    sides are read, left to right, before either cell is written. *)
Definition Swap (f : TSSPFiles) (i j : Z) : outcome TSSPFiles :=
  fj ← index (files f) j;
  fi ← index (files f) i;
  Ret (mkFiles (files_ref f) (closing f)
         (<[Z.to_nat j := fi]> (<[Z.to_nat i := fj]> (files f)))).

Definition StopFiles (f : TSSPFiles) : TSSPFiles :=
  mkFiles (files_ref f) (atomic_AddInt64 (closing f) 1) (Stop <$> files f).

(** [append(f.files[:idx], f.files[idx+1:]...)] once [idx] is in range. *)
Definition deleteFile (f : TSSPFiles) (tbl : tsspFile) : outcome TSSPFiles :=
  idx ← fileIndex f tbl;
  if (idx <? 0) || (idx >=? Len f)
  then Panic ("file not file, " +:+ Path tbl)
  else Ret (mkFiles (files_ref f) (closing f)
              (take (Z.to_nat idx) (files f)
               ++ drop (Z.to_nat (idx + 1)) (files f))).

Definition Append (f : TSSPFiles) (file : tsspFile) : TSSPFiles :=
  mkFiles (files_ref f) (closing f) (files f ++ [file]).

(** The order [Less] computes, on two files. *)
Definition less_file (a b : tsspFile) : bool :=
  if negb ((LevelAndSequence a).2 =? (LevelAndSequence b).2)
  then (LevelAndSequence a).2 <? (LevelAndSequence b).2
  else FileNameExtend a <? FileNameExtend b.

(** No later file is below an earlier one. *)
Definition lex_sorted (fs : list tsspFile) : Prop :=
  forall (i j : nat) (a b : tsspFile),
    (i < j)%nat -> fs !! i = Some a -> fs !! j = Some b ->
    less_file b a = false.

End FileSet.

Section FileMore.
Context {D : Decls} {RD : TSSPFileReader} {RT : Runtime}
        {RDM : TSSPFileReaderMore} {RTM : RuntimeMore}.

Definition RefFileReader (f : tsspFile) : tsspFile :=
  set_reader f (reader_Ref (reader f)).

Definition UnrefFileReader (f : tsspFile) : tsspFile :=
  if stopped f then f else set_reader f (reader_Unref (reader f)).

Definition FreeMemory (f : tsspFile) (q : GCQueue) : Z * tsspFile * GCQueue :=
  if Inuse f then (0, f, nodeTableStoreGC_Add q true f)
  else
    let '(size, r) := reader_FreeMemory (reader f) in
    (size, set_reader f r, q).

(** [levelEvictList] in place of [levelEvictListLock] and
    [levelEvictListUnLock]: the same test and the same removal, on a list
    whose lock the caller is left to hold.  Locks are outside this model,
    so who holds the level lock is not expressed here. *)
Definition RemoveFromEvictListUnSafe (f : tsspFile) (level : Z) (reg : Registry)
    : tsspFile * Registry :=
  match memEle f with
  | Some e => (set_memEle f None, list_Remove reg level e)
  | None => (f, reg)
  end.

Definition Free (f : tsspFile) (evictLock : bool) (reg : Registry)
    (q : GCQueue) : Z * tsspFile * Registry * GCQueue :=
  let '(size, f, q) := FreeMemory f q in
  let level := TSSPFileName.level (name f) in
  let order := TSSPFileName.order (name f) in
  let reg :=
    if order
    then addMemSize reg (levelName level) (- size) (- size) 0
    else addMemSize reg (levelName level) (- size) 0 (- size) in
  let '(f, reg) :=
    if evictLock then RemoveFromEvictList f level reg
    else RemoveFromEvictListUnSafe f level reg in
  (size, f, reg, q).

Definition AddToEvictList (f : tsspFile) (level : Z) (reg : Registry)
    : outcome (tsspFile * Registry) :=
  match memEle f with
  | Some _ => Panic "memEle need to nil"
  | None =>
      let '(reg, e) := list_PushFront reg level f in
      Ret (set_memEle f (Some e), reg)
  end.

(** The reader of a [tsspFile] value is always present here, so the
    [f.reader == nil] branch has no counterpart. *)
Definition LoadIntoMemory (f : tsspFile) (reg : Registry)
    : outcome (option error * tsspFile * Registry) :=
  let '(err, r) := reader_LoadIntoMemory (reader f) in
  let f := set_reader f r in
  match err with
  | Some e => Ret (Some e, f, reg)
  | None =>
      let level := TSSPFileName.level (name f) in
      let size := reader_InMemSize (reader f) in
      let order := TSSPFileName.order (name f) in
      let reg :=
        if order
        then addMemSize reg (levelName level) size size 0
        else addMemSize reg (levelName level) size 0 size in
      r ← AddToEvictList f level reg;
      Ret (None, r.1, r.2)
  end.

Definition Close (f : tsspFile) (w : World)
    : outcome (option error * tsspFile * World) :=
  let f := Stop f in
  let memSize := reader_InMemSize (reader f) in
  let level := TSSPFileName.level (name f) in
  let order := TSSPFileName.order (name f) in
  let name_ := reader_Path (reader f) in
  let tmp := IsTempleFile (filepath_Base name_) in
  f ← Unref f;
  f ← wg_Wait f;
  let f := set_reader f (reader_Close (reader f)).1 in
  if (memSize >? 0) && negb tmp then
    let reg :=
      if order
      then addMemSize (registry w) (levelName level) (- memSize) (- memSize) 0
      else addMemSize (registry w) (levelName level) (- memSize) 0 (- memSize)
    in
    let '(f, reg) := RemoveFromEvictList f level reg in
    Ret (None, f, mkWorld (disk w) reg (removals w))
  else Ret (None, f, w).

(** [op] is the closure handed to [FileOperation], as the change it makes
    to the file; [None] is a nil closure.  The deferred calls run after
    [op] returns; when [op] traps the process traps. *)
Definition FileOperation (f : tsspFile)
    (op : option (tsspFile -> outcome tsspFile)) : outcome tsspFile :=
  match op with
  | None => Ret f
  | Some op =>
      f ← Ref f;
      let f := RefFileReader f in
      f ← op f;
      let f := UnrefFileReader f in
      Unref f
  end.

(** Any call that changes the counters of one file. *)
Inductive call : Type := CRef | CUnref | CStop | CClose | CRemove.

Definition exec_call (c : call) (s : tsspFile * World)
    : outcome (tsspFile * World) :=
  match c with
  | CRef => f ← Ref s.1; Ret (f, s.2)
  | CUnref => f ← Unref s.1; Ret (f, s.2)
  | CStop => Ret (Stop s.1, s.2)
  | CClose => r ← Close s.1 s.2; Ret (r.1.2, r.2)
  | CRemove => r ← Remove s.1 s.2; Ret (r.1.2, r.2)
  end.

Fixpoint run_calls (cs : list call) (s : tsspFile * World)
    : outcome (tsspFile * World) :=
  match cs with
  | [] => Ret s
  | c :: cs' => s' ← exec_call c s; run_calls cs' s'
  end.

(** What holds of the counters between two calls, [n] calls before the
    end of a run that started with the unlink log [base]: the counters are
    [n] steps away from wrapping, and either the counter is positive and
    nothing was unlinked, or it is not, the file is stopped and at most
    one unlink was logged. *)
Definition counters_inv (n : nat) (base : list string)
    (s : tsspFile * World) : Prop :=
  min_int32 + Z.of_nat n <= ref s.1 <= max_int32 - Z.of_nat n /\
  0 <= flag s.1 < 2 ^ 32 - Z.of_nat n /\
  ((1 <= ref s.1 /\ removals s.2 = base) \/
   (ref s.1 <= 0 /\ 0 < flag s.1 /\
    (length (removals s.2) <= S (length base))%nat)).

End FileMore.

(** ** The compact-group pool *)

Module CompactGroup.

(** A [[]string]: the backing array and the length in use; the capacity
    is the length of the array (every slice here starts at its first
    cell). *)
Record slice : Type := mkSlice {
  backing : list string;
  len : nat
}.

Definition cap (s : slice) : nat := length (backing s).

(** The strings a reader of the slice sees. *)
Definition elems (s : slice) : list string := take (len s) (backing s).

(** [make([]string, 0, n)] *)
Definition make (n : nat) : slice := mkSlice (replicate n "") 0.

(** [s[:count]] *)
Definition upto (s : slice) (count : Z) : outcome slice :=
  if (count <? 0) || (count >? Z.of_nat (cap s))
  then Panic "slice bounds out of range"
  else Ret (mkSlice (backing s) (Z.to_nat count)).

Record t : Type := mk {
  name : string;
  shardId : Z;               (* uint64 *)
  toLevel : Z;               (* uint16 *)
  group : slice;
  dropping : option Z        (* *int64, as an address *)
}.

(** What [compactGroupPool.New] builds. *)
Definition pool_New : t := mk "" 0 0 (make 8) None.

(** [NewCompactGroup] once [compactGroupPool.Get()] has returned [g]: a
    new object, or one that [release] put back. *)
Definition NewCompactGroup_on (g : t) (name_ : string) (toLevle count : Z)
    : outcome t :=
  grp ← upto (group g) count;
  Ret (mk name_ (shardId g) toLevle grp (dropping g)).

Definition reset (g : t) : t :=
  mk "" 0 0 (mkSlice (backing (group g)) 0) None.

(** [release]: the object as it goes back to the pool. *)
Definition release (g : t) : t := reset g.

End CompactGroup.

(** ** Measurement metadata: shard keys

    [GetShardKey] reads nothing of a [MeasurementInfo] but its
    [ShardKeys], and takes them as its argument here. *)

Module Meta.

Record ShardKeyInfo : Type := mkShardKeyInfo {
  ShardKey : list string;
  Type_ : string;
  ShardGroup : Z             (* uint64 *)
}.

(** [for i := len(msti.ShardKeys) - 1; i >= 0; i-- { ... }]: [Some i] is
    the address of [ShardKeys[i]], [None] is nil. *)
Fixpoint GetShardKey_from (keys : list ShardKeyInfo) (ID : Z) (i : nat)
    : outcome (option nat) :=
  sk ← index keys (Z.of_nat i);
  if ShardGroup sk <=? ID then Ret (Some i)
  else match i with
       | O => Ret None
       | S j => GetShardKey_from keys ID j
       end.

Definition GetShardKey (ShardKeys : list ShardKeyInfo) (ID : Z)
    : outcome (option nat) :=
  if Z.of_nat (length ShardKeys) - 1 >=? 0
  then GetShardKey_from ShardKeys ID (Z.to_nat (Z.of_nat (length ShardKeys) - 1))
  else Ret None.

(** [for i := range ski.ShardKey { if ski.ShardKey[i] != other.ShardKey[i]
    { return false } }; return true], with [keys = ski.ShardKey[i:]]. *)
Fixpoint EqualsToAnother_loop (keys other : list string) (i : Z)
    : outcome bool :=
  match keys with
  | [] => Ret true
  | k :: keys' =>
      o ← index other i;
      if negb (String.eqb k o) then Ret false
      else EqualsToAnother_loop keys' other (i + 1)
  end.

Definition EqualsToAnother (ski other : ShardKeyInfo) : outcome bool :=
  if negb (Z.of_nat (length (ShardKey ski)) =? Z.of_nat (length (ShardKey other)))
  then Ret false
  else if negb (String.eqb (Type_ ski) (Type_ other)) then Ret false
  else EqualsToAnother_loop (ShardKey ski) (ShardKey other) 0.

End Meta.

(** ** The simulation, continued *)

Module SimMore.

(** The call counter of the simulated reader also counts its pins. *)
#[export] Instance sim_reader_more
    : @TSSPFileReaderMore Sim.decls Sim.sim_reader :=
  Build_TSSPFileReaderMore Sim.decls Sim.sim_reader
    (* reader_Ref *) Sim.called
    (* reader_Unref *)
    (fun r => Sim.mkReader (Sim.r_path r) (Sim.r_inMem r) (Sim.r_closed r)
                (pred (Sim.r_calls r)))
    (* reader_FreeMemory *)
    (fun r => (Sim.r_inMem r,
               Sim.mkReader (Sim.r_path r) 0 (Sim.r_closed r) (Sim.r_calls r)))
    (* reader_LoadIntoMemory *)
    (fun r => if Sim.r_closed r then (Some (Errorf "reader closed"), r)
              else (None, Sim.mkReader (Sim.r_path r) 4096 false (Sim.r_calls r))).

(** Paths of the simulation have no directory part; a temporary file
    ends in ".init". *)
#[export] Instance sim_runtime_more
    : @RuntimeMore Sim.decls Sim.sim_reader Sim.sim_runtime :=
  Build_RuntimeMore Sim.decls Sim.sim_reader Sim.sim_runtime
    (* GCQueue *) (list (bool * string))
    (* nodeTableStoreGC_Add *)
    (fun q free f => (free, Sim.r_path (reader f)) :: q)
    (* list_PushFront *)
    (fun reg _ _ =>
       let e := S (foldr Nat.max 0%nat (Sim.lru reg)) in
       (Sim.mkRegistry (Sim.total_bytes reg) (Sim.order_bytes reg)
          (Sim.unorder_bytes reg) (e :: Sim.lru reg), e))
    (* IsTempleFile *)
    (fun s => String.eqb (String.substring (String.length s - 5) 5 s) ".init")
    (* filepath_Base *) (fun s => s).

(** [file] with [n] readers holding a reference. *)
Definition file_in_use (path : string) (seq level ext : Z) (n : nat) : tsspFile :=
  @mkFile Sim.decls Sim.sim_reader Sim.sim_runtime
    n (TSSPFileName.mk seq level 0 ext true) (1 + Z.of_nat n) 0
    (Some "/data/lock") None (Sim.mkReader path 0 false 0).

End SimMore.

(** * Properties *)

Section Facts.
Context {D : Decls} {RD : TSSPFileReader} {RT : Runtime}.

(** ** Machine integers *)

Lemma wrap_int32_id (z : Z) : int32_range z -> wrap_int32 z = z.
Proof.
  unfold int32_range, min_int32, max_int32, wrap_int32. intros Hz.
  rewrite Z.mod_small by lia. lia.
Qed.

Lemma wrap_uint32_id (z : Z) : uint32_range z -> wrap_uint32 z = z.
Proof.
  unfold uint32_range, wrap_uint32. intros Hz. by rewrite Z.mod_small.
Qed.

Lemma atomic_AddInt32_exact (x delta : Z) :
  int32_range (x + delta) -> atomic_AddInt32 x delta = x + delta.
Proof. apply wrap_int32_id. Qed.

(** Side conditions "the sum still fits an int32", from the bounds at
    hand. *)
Ltac int32_bounds :=
  unfold int32_range, uint32_range, min_int32, max_int32 in *;
  cbn [length] in *; lia.

(** ** The stop flag *)

Lemma stopped_true (f : tsspFile) : stopped f = true <-> 0 < flag f.
Proof. unfold stopped. by rewrite Z.gtb_gt, Z.gt_lt_iff. Qed.

Lemma stopped_false (f : tsspFile) : stopped f = false <-> flag f <= 0.
Proof.
  unfold stopped. rewrite Z.gtb_ltb, Z.ltb_ge. done.
Qed.

(** [Stop] sets the flag, short of the 2^32-th call on one file. *)
Lemma Stop_stopped (f : tsspFile) :
  0 <= flag f < 2 ^ 32 - 1 -> stopped (Stop f) = true.
Proof.
  intros Hf. apply stopped_true. unfold Stop, atomic_AddUint32. simpl.
  rewrite wrap_uint32_id by int32_bounds. lia.
Qed.

(** The read operations that test the flag fail with [errFileClosed] on a
    stopped file, and leave the file as it was. *)
Lemma guarded_reads_closed (f : tsspFile) (id idx offset size itemCount
    metaIdx segment : Z) (tr : TimeRange) (cm : option ChunkMeta_t)
    (m : option MetaIndex_t) (cms : list ChunkMeta_t) (buf : list byte)
    (rec : option record_Record) (decs : option ReadContext) :
  stopped f = true ->
  MetaIndex f id tr = Ret ((0, None, Some errFileClosed), f) /\
  MetaIndexAt f idx = Ret ((None, Some errFileClosed), f) /\
  ChunkMeta f id offset size itemCount metaIdx cm buf
    = Ret ((None, Some errFileClosed), f) /\
  ChunkMetaAt f idx = Ret ((None, Some errFileClosed), f) /\
  ReadData f offset size buf = Ret (([], Some errFileClosed), f) /\
  ReadChunkMetaData f metaIdx m cms = Ret ((cms, Some errFileClosed), f) /\
  ReadAt f cm segment rec decs = Ret ((None, Some errFileClosed), f) /\
  Contains f id = Ret ((false, Some errFileClosed), f) /\
  ContainsValue f id tr = Ret ((false, Some errFileClosed), f) /\
  ContainsTime f tr = Ret ((false, Some errFileClosed), f) /\
  MinMaxTime f = Ret ((0, 0, Some errFileClosed), f).
Proof.
  intros Hs.
  unfold MetaIndex, MetaIndexAt, ChunkMeta, ChunkMetaAt, ReadData,
    ReadChunkMetaData, ReadAt, Contains, ContainsValue, ContainsTime,
    MinMaxTime.
  rewrite Hs. repeat split.
Qed.

(** [BlockHeader], [ReadMetaBlock] and [ReadDataBlock] do not look at the
    flag: they hand the call to the reader whatever its value. *)
Lemma unguarded_reads_forward (f : tsspFile) (metaIdx id offset size count : Z)
    (meta : option ChunkMeta_t) (fields : list record_Field)
    (buf : list byte) :
  BlockHeader f meta fields
    = forward f (reader_BlockHeader (reader f) meta fields) /\
  ReadMetaBlock f metaIdx id offset size count buf
    = forward f (reader_ReadMetaBlock (reader f) metaIdx id offset size count buf) /\
  ReadDataBlock f offset size buf
    = forward f (reader_ReadDataBlock (reader f) offset size buf).
Proof. repeat split. Qed.

(** C10.  On a file whose stop flag is set, [Path] and [Name] return the
    empty string: not the reader's path or name, and no error. *)
Theorem stopped_Path_Name_empty (f : tsspFile) :
  stopped f = true -> Path f = "" /\ Name f = "".
Proof.
  intros Hs. unfold Path, Name. rewrite Hs. split; reflexivity.
Qed.

(** C9.  [Read], [Delete], [DeleteRange], [HasTombstones] and
    [TombstoneFiles] trap on every file and every argument: none of them
    returns a result or an error. *)
Theorem unimplemented_operations_trap (f : tsspFile) (id : Z) (tr : TimeRange)
    (dst : option record_Record) (ids : list Z) (min max : Z) :
  Read f id tr dst = Panic "impl me" /\
  Delete f ids = Panic "impl me" /\
  DeleteRange f ids min max = Panic "impl me" /\
  HasTombstones f = Panic "impl me" /\
  TombstoneFiles f = Panic "impl me".
Proof. repeat split. Qed.

(** C6.  On a file that is not stopped, an [Unref] whose decrement leaves
    the counter at zero or below traps with "file closed". *)
Theorem Unref_underflow_traps (f : tsspFile) :
  stopped f = false ->
  atomic_AddInt32 (ref f) (-1) <= 0 ->
  Unref f = Panic "file closed".
Proof.
  intros Hs Hz. unfold Unref. cbn [ref set_ref].
  destruct (Z.leb_spec (atomic_AddInt32 (ref f) (-1)) 0) as [_|Hgt]; [|lia].
  replace (stopped (set_ref f _)) with (stopped f) by reflexivity.
  by rewrite Hs.
Qed.

(** C7.  [Ref] on a stopped file returns the file unchanged: counter and
    wait-group keep their values.  On a file that is not stopped it adds
    one to the counter (as [atomic.AddInt32] does, so exactly one below
    the largest int32) and one to the wait-group, and changes nothing
    else. *)
Theorem Ref_noop_when_stopped_else_increments (f : tsspFile) :
  (stopped f = true -> Ref f = Ret f) /\
  (stopped f = false ->
     exists f', Ref f = Ret f' /\
       ref f' = atomic_AddInt32 (ref f) 1 /\
       (int32_range (ref f) -> ref f < max_int32 -> ref f' = ref f + 1) /\
       wg f' = S (wg f) /\
       flag f' = flag f /\ name f' = name f /\ lock f' = lock f /\
       memEle f' = memEle f /\ reader f' = reader f).
Proof.
  unfold Ref. split; intros Hs; rewrite Hs; [done|].
  eexists. split; [reflexivity|]. cbn. repeat split.
  intros Hr Hlt. apply atomic_AddInt32_exact. int32_bounds.
Qed.

(** C8.  On a file that is not stopped, [ReadAt] with a segment index that
    is negative or not below the chunk's segment count returns the error
    "segment index <i> out of range <n>" without trapping and without
    touching the reader; with an index in range it forwards the call to
    the reader: it returns what the reader's [ReadAt] returns, and the
    file is left with the reader in the state that call left it in. *)
Theorem ReadAt_segment_range (f : tsspFile) (cm : ChunkMeta_t) (segment : Z)
    (dst : option record_Record) (decs : option ReadContext) :
  stopped f = false ->
  (segment < 0 \/ segmentCount cm <= segment ->
     ReadAt f (Some cm) segment dst decs
     = Ret ((None,
             Some (Errorf ("segment index " +:+ pretty segment +:+
                           " out of range " +:+ pretty (segmentCount cm)))),
            f)) /\
  (0 <= segment < segmentCount cm ->
     ReadAt f (Some cm) segment dst decs
     = Ret ((reader_ReadAt (reader f) (Some cm) segment dst decs).1,
            set_reader f
              (reader_ReadAt (reader f) (Some cm) segment dst decs).2)).
Proof.
  intros Hs. unfold ReadAt. rewrite Hs. cbn.
  split; intros Hseg.
  - destruct (Z.ltb_spec segment 0); [done|].
    destruct (Z.geb_spec segment (segmentCount cm)); [done|lia].
  - destruct (Z.ltb_spec segment 0); [lia|].
    destruct (Z.geb_spec segment (segmentCount cm)); [lia|done].
Qed.

(** ** Removal *)

Lemma Remove_evict_spec (f : tsspFile) (w : World) (memSize level : Z)
    (order : bool) :
  Remove_evict f w memSize level order
  = if memSize >? 0
    then (None, set_memEle f None,
          mkWorld (disk w) (accounted (registry w) level memSize order (memEle f))
            (removals w))
    else (None, f, w).
Proof.
  unfold Remove_evict, RemoveFromEvictList, accounted.
  destruct (memSize >? 0); [|done].
  destruct (memEle f) eqn:He; [done|].
  destruct f; cbn in *; by subst.
Qed.


(** ** The fully-compacted test *)

Lemma fullCompacted_loop_spec (lv seq : Z) (rest : list tsspFile) (b : bool) :
  fullCompacted_loop lv seq rest b = true <->
  b = true /\ Forall (fun g => LevelAndSequence g = (lv, seq)) rest.
Proof.
  revert b. induction rest as [|g rest IH]; intros b; cbn.
  - split; [intros ->; by split|by intros [-> _]].
  - destruct b; [|split; [done|by intros [? _]]].
    rewrite IH, Forall_cons, andb_true_iff, !Z.eqb_eq.
    unfold LevelAndSequence. split.
    + intros [[Hl Hs] Hrest]. by rewrite <- Hl, Hs.
    + intros [_ [[= Hl Hs] Hrest]]. done.
Qed.

(** C3.  [fullCompacted] is true exactly when the collection has at most
    one file, or every file reports the level and sequence of the first
    one. *)
Theorem fullCompacted_iff (f : TSSPFiles) :
  fullCompacted f = true <->
  (length (files f) <= 1)%nat \/
  (forall f0, head (files f) = Some f0 ->
     Forall (fun g => LevelAndSequence g = LevelAndSequence f0) (files f)).
Proof.
  unfold fullCompacted.
  destruct (Z.leb_spec (Z.of_nat (length (files f))) 1) as [Hle|Hgt].
  - split; [intros _; left; lia|done].
  - destruct (files f) as [|f0 rest] eqn:Hfs; [cbn in Hgt; lia|].
    destruct (LevelAndSequence f0) as [lv seq] eqn:Hf0.
    rewrite fullCompacted_loop_spec. cbn [head]. split.
    + intros [_ Hall]. right. intros ? [= <-]. rewrite Hf0.
      by apply Forall_cons.
    + intros [Hlen|Hall]; [cbn in *; lia|].
      specialize (Hall f0 eq_refl). rewrite Hf0 in Hall.
      apply Forall_cons in Hall as [_ Hall]. done.
Qed.

(** ** Reference counting around [Remove] *)

(** Before [Remove]: a file that is not stopped counts its readers, in the
    counter and in the wait-group alike. *)
Lemma run_before_Remove (pre : list op) :
  forall (held : nat) (f : tsspFile) (w : World),
  no_Remove pre = true ->
  balanced held pre = true ->
  flag f = 0 -> ref f = 1 + Z.of_nat held -> wg f = held ->
  1 + Z.of_nat held + Z.of_nat (length pre) <= max_int32 ->
  exists f',
    run pre (f, w) = Ret (f', w) /\
    flag f' = 0 /\
    ref f' = 1 + Z.of_nat held + readers pre /\
    Z.of_nat (wg f') = Z.of_nat held + readers pre /\
    name f' = name f /\ lock f' = lock f /\ reader f' = reader f /\
    memEle f' = memEle f.
Proof.
  induction pre as [|o pre IH]; intros held f w Hnr Hbal Hfl Href Hwg Hlen.
  - exists f. cbn. repeat split; lia.
  - assert (Hst : stopped f = false) by (apply stopped_false; lia).
    destruct o; cbn in Hnr; [| |done]; cbn [run exec fst snd].
    + (* Ref *)
      unfold Ref. rewrite Hst. cbn [mbind outcome_bind].
      rewrite atomic_AddInt32_exact by int32_bounds.
      edestruct (IH (S held)) as (f' & Hrun & Hf' & Hr' & Hw' & Hn' & Hl' & Hrd' & Hm');
        [exact Hnr|exact Hbal| | | | |].
      5:{ exists f'. split; [exact Hrun|]. cbn [readers] in *. cbn in *.
          repeat split; try done; lia. }
      all: cbn; cbn [length] in Hlen; try done; lia.
    + (* Unref *)
      destruct held as [|held]; [done|]. cbn in Hbal.
      unfold Unref. cbn [ref set_ref].
      rewrite atomic_AddInt32_exact by int32_bounds.
      destruct (Z.leb_spec (ref f + -1) 0) as [Hle|_]; [lia|].
      unfold wg_Done. cbn [wg set_ref]. rewrite Hwg. cbn [mbind outcome_bind].
      edestruct (IH held) as (f' & Hrun & Hf' & Hr' & Hw' & Hn' & Hl' & Hrd' & Hm');
        [exact Hnr|exact Hbal| | | | |].
      5:{ exists f'. split; [exact Hrun|]. cbn [readers] in *. cbn in *.
          repeat split; try done; lia. }
      all: cbn; cbn [length] in Hlen; try done; lia.
Qed.

(** [Remove] itself: it asks the file system to unlink exactly when its own
    decrement leaves the counter at zero. *)
Lemma exec_Remove_spec (f : tsspFile) (w : World) (lk : string) (r : Z) :
  flag f = 0 -> lock f = Some lk ->
  ref f = 1 + r -> 0 <= r -> Z.of_nat (wg f) = r -> 1 + r <= max_int32 ->
  exists f' w',
    exec OpRemove (f, w) = Ret (f', w') /\
    flag f' = 1 /\ ref f' = r /\ wg f' = wg f /\
    removals w' = (if decide (r = 0)
                   then reader_Path (reader f) :: removals w
                   else removals w).
Proof.
  destruct f as [wg0 nm rf fl lk0 me rd]. cbn [flag lock ref wg reader].
  intros -> -> -> Hr Hwg Hmax.
  cbn [exec fst snd]. unfold Remove, set_flag, set_ref.
  cbn [ref wg name flag lock memEle reader].
  rewrite atomic_AddInt32_exact by int32_bounds.
  replace (1 + r + -1) with r by lia.
  replace (atomic_AddUint32 0 1) with 1 by reflexivity.
  destruct (Z.eqb_spec r 0) as [->|Hne].
  - assert (wg0 = 0%nat) as -> by lia.
    cbn [wg_Wait wg mbind outcome_bind set_reader deref_lock lock reader name].
    destruct (fileops_Remove _ _ _) as [d' [e|]].
    + destruct (os_IsNotExist e); cbn [negb mbind outcome_bind].
      * rewrite Remove_evict_spec. destruct (_ >? 0); do 2 eexists;
          (split; [reflexivity|]); cbn; done.
      * do 2 eexists. split; [reflexivity|]. cbn. done.
    + cbn [mbind outcome_bind]. rewrite Remove_evict_spec.
      destruct (_ >? 0); do 2 eexists; (split; [reflexivity|]); cbn; done.
  - cbn [mbind outcome_bind]. do 2 eexists. split; [reflexivity|].
    cbn. rewrite decide_False by done. done.
Qed.

(** After [Remove]: the file is stopped, [Ref] does nothing, and [Unref]
    neither traps nor reaches the file system. *)
Lemma run_after_Remove (post : list op) :
  forall (f : tsspFile) (w : World),
  no_Remove post = true ->
  0 < flag f ->
  ref f <= Z.of_nat (wg f) ->
  min_int32 + Z.of_nat (length post) <= ref f <= max_int32 ->
  exists f', run post (f, w) = Ret (f', w).
Proof.
  induction post as [|o post IH]; intros f w Hnr Hfl Hwg Hrange.
  - by exists f.
  - assert (Hst : stopped f = true) by (by apply stopped_true).
    destruct o; cbn in Hnr; [| |done]; cbn [run exec fst snd].
    + unfold Ref. rewrite Hst. cbn [mbind outcome_bind].
      apply IH; try done. cbn [length] in Hrange. lia.
    + unfold Unref. cbn [ref set_ref].
      rewrite atomic_AddInt32_exact by int32_bounds.
      destruct (Z.leb_spec (ref f + -1) 0) as [Hle|Hgt].
      * replace (stopped (set_ref f _)) with (stopped f) by reflexivity.
        rewrite Hst. cbn [mbind outcome_bind].
        apply IH; cbn; cbn [length] in Hrange; try done; lia.
      * unfold wg_Done. cbn [wg set_ref].
        destruct (wg f) as [|n] eqn:Hn; [lia|]. cbn [mbind outcome_bind].
        apply IH; cbn; cbn [length] in Hrange; try done; lia.
Qed.

Lemma run_app (ops1 ops2 : list op) (s s1 : tsspFile * World) :
  run ops1 s = Ret s1 -> run (ops1 ++ ops2) s = run ops2 s1.
Proof.
  revert s. induction ops1 as [|o ops1 IH]; intros s; cbn.
  - by intros [= ->].
  - destruct (exec o s) as [s'| |]; cbn; [apply IH|done|done].
Qed.

Lemma readers_le_length (ops : list op) : readers ops <= Z.of_nat (length ops).
Proof. induction ops as [|[] ops IH]; cbn [readers length]; lia. Qed.

(** C1, as the code has it.  Take a freshly opened file, calls [pre] of
    [Ref] and [Unref] in which every [Unref] releases a reference taken
    before, one [Remove], and further calls [post] of [Ref] and [Unref].
    The whole sequence runs without trapping; the file system is asked to
    unlink at most once, by [Remove] itself, and exactly when no reader
    holds a reference at that call, so that [Remove]'s own decrement
    leaves the counter at zero.  While a reader holds a reference (the
    file is [Inuse]) [Remove] does not unlink, and neither does any later
    call. *)
Theorem Remove_unlinks_iff_no_reader (fileName : TSSPFileName.t)
    (fr : Reader) (lk : string) (w : World) (pre post : list op) :
  let f0 := OpenTSSPFile_result fileName fr (Some lk) in
  no_Remove pre = true ->
  no_Remove post = true ->
  balanced 0 pre = true ->
  Z.of_nat (length pre + length post) < max_int32 ->
  exists s1 s2 s3,
    run pre (f0, w) = Ret s1 /\
    exec OpRemove s1 = Ret s2 /\
    run post s2 = Ret s3 /\
    run (pre ++ OpRemove :: post) (f0, w) = Ret s3 /\
    ref s1.1 = 1 + readers pre /\
    0 <= readers pre /\
    Inuse s1.1 = bool_decide (readers pre ≠ 0) /\
    removals s1.2 = removals w /\
    removals s2.2 = (if decide (readers pre = 0)
                     then reader_Path fr :: removals w
                     else removals w) /\
    removals s3.2 = removals s2.2.
Proof.
  intros f0 Hpre Hpost Hbal Hlen.
  pose proof (readers_le_length pre) as Hrl.
  rewrite Nat2Z.inj_add in Hlen.
  destruct (run_before_Remove pre 0 f0 w)
    as (f1 & Hrun1 & Hfl1 & Href1 & Hwg1 & _ & Hlk1 & Hrd1 & _);
    try done; [cbn; lia|].
  cbn [Z.of_nat] in Href1, Hwg1.
  destruct (exec_Remove_spec f1 w lk (readers pre))
    as (f2 & w2 & Hrm & Hfl2 & Href2 & Hwg2 & Hrem2);
    try done; try lia.
  destruct (run_after_Remove post f2 w2) as (f3 & Hrun3); try done; try lia.
  { unfold min_int32, max_int32 in *. lia. }
  exists (f1, w), (f2, w2), (f3, w2).
  repeat split; try done; cbn [fst snd]; try lia.
  - rewrite (run_app _ _ _ _ Hrun1). cbn [run]. rewrite Hrm.
    cbn [mbind outcome_bind]. exact Hrun3.
  - unfold Inuse.
    destruct (Z.gtb_spec (ref f1) 1);
      [rewrite bool_decide_true by lia; done|].
    rewrite bool_decide_false; [done|]. intros Hn. apply Hn. lia.
  - rewrite Hrem2, Hrd1. done.
Qed.

(** ** Sorted file sets *)

Lemma index_lookup {A : Type} (s : list A) (k : nat) (x : A) :
  s !! k = Some x -> index s (Z.of_nat k) = Ret x.
Proof.
  intros Hk. unfold index.
  destruct (Z.ltb_spec (Z.of_nat k) 0); [lia|].
  by rewrite Nat2Z.id, Hk.
Qed.

Lemma index_in_range {A : Type} (s : list A) (i : Z) :
  0 <= i < Z.of_nat (length s) ->
  exists x, s !! Z.to_nat i = Some x /\ index s i = Ret x.
Proof.
  intros Hi. destruct (lookup_lt_is_Some_2 s (Z.to_nat i)) as [x Hx]; [lia|].
  exists x. split; [done|]. rewrite <- (Z2Nat.id i) by lia.
  by apply index_lookup.
Qed.

Lemma IsSorted_from_true (f : TSSPFiles) (i : nat) :
  IsSorted_from f i = Ret true ->
  forall j : nat, (j < i)%nat ->
    Less f (Z.of_nat (S j)) (Z.of_nat j) = Ret false.
Proof.
  induction i as [|i IH]; intros Hs j Hj; [lia|].
  cbn [IsSorted_from] in Hs.
  destruct (Less f (Z.of_nat (S i)) (Z.of_nat i)) as [[]| |] eqn:HL;
    cbn in Hs; try done.
  destruct (decide (j = i)) as [->|Hne]; [done|].
  apply IH; [done|lia].
Qed.

Lemma Less_false_seq (f : TSSPFiles) (j : nat) (x y : tsspFile) :
  files f !! j = Some x -> files f !! S j = Some y ->
  Less f (Z.of_nat (S j)) (Z.of_nat j) = Ret false ->
  (LevelAndSequence x).2 <= (LevelAndSequence y).2.
Proof.
  intros Hx Hy. unfold Less.
  rewrite (index_lookup _ _ _ Hx), (index_lookup _ _ _ Hy).
  cbn [mbind outcome_bind].
  destruct (Z.eqb_spec (LevelAndSequence y).2 (LevelAndSequence x).2) as [Heq|Hne];
    cbn [negb]; [intros _; lia|].
  intros [= Hlt]. apply Z.ltb_ge in Hlt. exact Hlt.
Qed.

(** A set that [sort.IsSorted] accepts has its sequences in order. *)
Lemma sorted_seq_sorted (f : TSSPFiles) :
  sort_IsSorted f = Ret true -> seq_sorted (files f).
Proof.
  intros Hs. unfold sort_IsSorted, Len in Hs.
  pose proof (IsSorted_from_true _ _ Hs) as Hadj.
  assert (Hstep : forall (d i : nat) x y,
             files f !! i = Some x -> files f !! (i + d)%nat = Some y ->
             (LevelAndSequence x).2 <= (LevelAndSequence y).2).
  { induction d as [|d IHd]; intros i x y Hx Hy.
    - rewrite Nat.add_0_r in Hy. assert (x = y) as -> by congruence. lia.
    - replace (i + S d)%nat with (S (i + d)) in Hy by lia.
      destruct (lookup_lt_is_Some_2 (files f) (i + d)) as [z Hz].
      { apply lookup_lt_Some in Hy. lia. }
      specialize (IHd i x z Hx Hz).
      pose proof (Less_false_seq f (i + d) z y Hz Hy) as Hzy.
      etrans; [exact IHd|]. apply Hzy, Hadj.
      apply lookup_lt_Some in Hy. lia. }
  intros i j x y Hij Hx Hy.
  apply (Hstep (j - i)%nat i); [done|].
  by replace (i + (j - i))%nat with j by lia.
Qed.

(** ** The binary search *)

Lemma search_spec (fs : list tsspFile) (seq : Z) :
  seq_sorted fs ->
  forall (fuel : nat) (lo hi : Z),
  0 <= lo <= hi -> hi < Z.of_nat (length fs) -> hi - lo <= Z.of_nat fuel ->
  exists idx lo',
    search fuel fs seq lo hi = Ret (idx, lo') /\
    lo <= lo' <= hi /\
    ((idx = -1 /\
      forall (k : nat) (x : tsspFile),
        lo <= Z.of_nat k <= hi -> fs !! k = Some x ->
        (LevelAndSequence x).2 = seq -> lo' = Z.of_nat k)
     \/
     (lo <= idx <= hi /\
      exists x, fs !! Z.to_nat idx = Some x /\ (LevelAndSequence x).2 = seq)).
Proof.
  intros Hsorted. induction fuel as [|fuel IH]; intros lo hi Hlo Hhi Hfuel.
  - assert (lo = hi) as -> by lia. cbn [search]. rewrite Z.ltb_irrefl.
    exists (-1), hi. split; [done|]. split; [lia|]. left. split; [done|].
    intros; lia.
  - cbn [search]. destruct (Z.ltb_spec lo hi) as [Hlt|Hge].
    2:{ exists (-1), lo. split; [done|]. split; [lia|]. left. split; [done|].
        intros; lia. }
    set (mid := (lo + hi) `quot` 2).
    assert (Hmid : lo <= mid < hi)
      by (subst mid; Z.to_euclidean_division_equations; lia).
    destruct (index_in_range fs mid) as (fm & Hfm & ->); [lia|].
    cbn [mbind outcome_bind].
    destruct (Z.eqb_spec seq (LevelAndSequence fm).2) as [Heq|Hne].
    { exists mid, lo. split; [done|]. split; [lia|]. right.
      split; [lia|]. by exists fm. }
    destruct (Z.ltb_spec seq (LevelAndSequence fm).2) as [Hlt'|Hgt'].
    + destruct (IH lo mid) as (idx & lo' & -> & Hlo' & Hcases); try lia.
      exists idx, lo'. split; [done|]. split; [lia|].
      destruct Hcases as [[-> Huniq]|[Hidx Hx]]; [left|right].
      * split; [done|]. intros k x Hk Hkx Hseq. apply (Huniq k x); try done.
        assert (~ (Z.to_nat mid < k)%nat); [|lia]. intros Hmk.
        pose proof (Hsorted (Z.to_nat mid) k fm x ltac:(lia) Hfm Hkx). lia.
      * split; [lia|done].
    + destruct (IH (mid + 1) hi) as (idx & lo' & -> & Hlo' & Hcases); try lia.
      exists idx, lo'. split; [done|]. split; [lia|].
      destruct Hcases as [[-> Huniq]|[Hidx Hx]]; [left|right].
      * split; [done|]. intros k x Hk Hkx Hseq. apply (Huniq k x); try done.
        assert (~ (k <= Z.to_nat mid)%nat); [|lia]. intros Hmk.
        pose proof (Hsorted k (Z.to_nat mid) x fm ltac:(lia) Hkx Hfm). lia.
      * split; [lia|done].
Qed.

(** ** The two scans around the hit *)

Lemma scan_down_unfold (fs : list tsspFile) (seq : Z) (path : string) (i : nat) :
  scan_down fs seq path i =
  (fi ← index fs (Z.of_nat i);
   if negb ((LevelAndSequence fi).2 =? seq) then Ret None
   else if String.eqb (Path fi) path then Ret (Some (Z.of_nat i))
   else match i with
        | O => Ret None
        | S j => scan_down fs seq path j
        end).
Proof. by destruct i. Qed.

Lemma scan_down_miss (fs : list tsspFile) (seq : Z) (path : string) (i : nat) :
  (i < length fs)%nat ->
  (forall (j : nat) (x : tsspFile),
     (j <= i)%nat -> fs !! j = Some x -> Path x ≠ path) ->
  scan_down fs seq path i = Ret None.
Proof.
  induction i as [|i IH]; intros Hi Hmiss; rewrite scan_down_unfold.
  all: destruct (lookup_lt_is_Some_2 fs _ Hi) as [x Hx].
  all: rewrite (index_lookup _ _ _ Hx); cbn [mbind outcome_bind].
  all: destruct (negb _); [done|].
  all: pose proof (Hmiss _ x (Nat.le_refl _) Hx) as Hne.
  all: apply String.eqb_neq in Hne; rewrite Hne.
  - done.
  - apply IH; [lia|]. intros j y Hj. apply Hmiss. lia.
Qed.

Lemma scan_down_hit (fs : list tsspFile) (seq : Z) (path : string)
    (k : nat) (x : tsspFile) :
  fs !! k = Some x -> (LevelAndSequence x).2 = seq -> Path x = path ->
  forall d : nat,
  (k + d < length fs)%nat ->
  (forall (j : nat) (y : tsspFile),
     (k < j <= k + d)%nat -> fs !! j = Some y ->
     (LevelAndSequence y).2 = seq /\ Path y ≠ path) ->
  scan_down fs seq path (k + d) = Ret (Some (Z.of_nat k)).
Proof.
  intros Hx Hseq Hpath. induction d as [|d IH]; intros Hd Hband.
  - rewrite Nat.add_0_r, scan_down_unfold, (index_lookup _ _ _ Hx).
    cbn [mbind outcome_bind].
    rewrite Hseq, Z.eqb_refl, Hpath, String.eqb_refl. done.
  - replace (k + S d)%nat with (S (k + d)) in * by lia.
    rewrite scan_down_unfold.
    destruct (lookup_lt_is_Some_2 fs _ Hd) as [y Hy].
    rewrite (index_lookup _ _ _ Hy); cbn [mbind outcome_bind].
    destruct (Hband (S (k + d)) y ltac:(lia) Hy) as [Hys Hyp].
    rewrite Hys, Z.eqb_refl. cbn [negb].
    apply String.eqb_neq in Hyp. rewrite Hyp.
    apply IH; [lia|]. intros j z Hj. apply Hband. lia.
Qed.

Lemma scan_up_miss (seq : Z) (path : string) (rest : list tsspFile) (i : Z) :
  Forall (fun x => Path x ≠ path) rest -> scan_up seq path rest i = None.
Proof.
  intros Hall. revert i. induction Hall as [|x rest Hx _ IH]; intros i; cbn.
  - done.
  - destruct (negb _); [done|].
    apply String.eqb_neq in Hx. rewrite Hx. apply IH.
Qed.

Lemma scan_up_hit (seq : Z) (path : string) (rest : list tsspFile) :
  forall (d : nat) (i : Z) (x : tsspFile),
  rest !! d = Some x -> (LevelAndSequence x).2 = seq -> Path x = path ->
  (forall (j : nat) (y : tsspFile),
     (j < d)%nat -> rest !! j = Some y ->
     (LevelAndSequence y).2 = seq /\ Path y ≠ path) ->
  scan_up seq path rest i = Some (i + Z.of_nat d).
Proof.
  induction rest as [|y rest IH]; intros d i x Hx Hseq Hpath Hband; [done|].
  cbn [scan_up]. destruct d as [|d].
  - cbn in Hx. injection Hx as ->.
    rewrite Hseq, Z.eqb_refl, Hpath, String.eqb_refl. cbn.
    f_equal. lia.
  - destruct (Hband 0%nat y ltac:(lia) eq_refl) as [Hys Hyp].
    rewrite Hys, Z.eqb_refl. cbn [negb].
    apply String.eqb_neq in Hyp. rewrite Hyp.
    rewrite (IH d (i + 1) x Hx Hseq Hpath).
    + f_equal. lia.
    + intros j z Hj Hz. apply (Hband (S j)); [lia|done].
Qed.

(** ** Lookup in a sorted set *)

Lemma Path_unique (fs : list tsspFile) (i j : nat) (x y : tsspFile) :
  NoDup (Path <$> fs) ->
  fs !! i = Some x -> fs !! j = Some y -> Path x = Path y -> i = j.
Proof.
  intros Hnd Hx Hy Hp.
  apply (NoDup_lookup _ i j (Path x) Hnd); rewrite list_lookup_fmap.
  - by rewrite Hx.
  - by rewrite Hy, Hp.
Qed.

Lemma fileIndex_member (f : TSSPFiles) (k : nat) (tbl : tsspFile) :
  seq_sorted (files f) -> NoDup (Path <$> files f) ->
  files f !! k = Some tbl -> fileIndex f tbl = Ret (Z.of_nat k).
Proof.
  intros Hsorted Hnd Hk. unfold fileIndex.
  pose proof (lookup_lt_Some _ _ _ Hk) as Hlen.
  destruct (Z.eqb_spec (Z.of_nat (length (files f))) 0) as [Hz|_]; [lia|].
  set (seq := (LevelAndSequence tbl).2).
  destruct (search_spec (files f) seq Hsorted (length (files f)) 0 (Len f - 1))
    as (idx & lo' & -> & Hlo' & Hcases); unfold Len in *; try lia.
  cbn [mbind outcome_bind].
  destruct Hcases as [[-> Huniq]|[Hidx (xm & Hxm & Hxs)]].
  - cbn [Z.eqb negb mbind outcome_bind].
    rewrite (Huniq k tbl) by (try done; lia).
    rewrite (index_lookup _ _ _ Hk). cbn [mbind outcome_bind].
    by rewrite String.eqb_refl.
  - destruct (Z.eqb_spec idx (-1)) as [?|_]; [lia|]. cbn [negb].
    assert (Hband : forall (j : nat) (y : tsspFile),
               (k <= j <= Z.to_nat idx)%nat \/ (Z.to_nat idx <= j <= k)%nat ->
               j ≠ k -> files f !! j = Some y ->
               (LevelAndSequence y).2 = seq /\ Path y ≠ Path tbl).
    { intros j y Hj Hjk Hy. split.
      - destruct Hj as [Hj|Hj].
        + pose proof (Hsorted k j tbl y ltac:(lia) Hk Hy).
          pose proof (Hsorted j (Z.to_nat idx) y xm ltac:(lia) Hy Hxm).
          subst seq. lia.
        + pose proof (Hsorted j k y tbl ltac:(lia) Hy Hk).
          pose proof (Hsorted (Z.to_nat idx) j xm y ltac:(lia) Hxm Hy).
          subst seq. lia.
      - intros Hp. apply Hjk. by apply (Path_unique (files f) j k y tbl). }
    destruct (decide (k <= Z.to_nat idx)%nat) as [Hle|Hgt].
    + replace (Z.to_nat idx) with (k + (Z.to_nat idx - k))%nat by lia.
      rewrite (scan_down_hit (files f) seq (Path tbl) k tbl); try done; [lia|].
      intros j y Hj. apply Hband; lia.
    + rewrite scan_down_miss; [|lia|].
      2:{ intros j y Hj Hy Hp.
          assert (j = k) by (by apply (Path_unique (files f) j k y tbl)). lia. }
      cbn [mbind outcome_bind].
      rewrite (scan_up_hit seq (Path tbl) _ (k - Z.to_nat (idx + 1)) (idx + 1) tbl);
        try done.
      * cbn [mbind outcome_bind]. f_equal. lia.
      * rewrite lookup_drop. rewrite <- Hk. f_equal. lia.
      * intros j y Hj. rewrite lookup_drop. apply Hband; lia.
Qed.

Lemma fileIndex_absent (f : TSSPFiles) (tbl : tsspFile) :
  seq_sorted (files f) -> Path tbl ∉ (Path <$> files f) ->
  fileIndex f tbl = Ret (-1).
Proof.
  intros Hsorted Habs. unfold fileIndex.
  destruct (Z.eqb_spec (Z.of_nat (length (files f))) 0) as [Hz|Hnz]; [done|].
  assert (Hmiss : forall (j : nat) (x : tsspFile),
             files f !! j = Some x -> Path x ≠ Path tbl).
  { intros j x Hx Hp. apply Habs. rewrite <- Hp.
    apply list_elem_of_fmap. exists x. split; [done|].
    by apply list_elem_of_lookup_2 in Hx. }
  set (seq := (LevelAndSequence tbl).2).
  destruct (search_spec (files f) seq Hsorted (length (files f)) 0 (Len f - 1))
    as (idx & lo' & -> & Hlo' & Hcases); unfold Len in *; try lia.
  cbn [mbind outcome_bind].
  assert (Hlast :
    (fl ← index (files f) lo';
     if String.eqb (Path fl) (Path tbl) then Ret lo' else Ret (-1))
    = Ret (-1)).
  { destruct (index_in_range (files f) lo') as (fl & Hfl & ->); [lia|].
    cbn [mbind outcome_bind].
    pose proof (Hmiss _ fl Hfl) as Hne. apply String.eqb_neq in Hne.
    by rewrite Hne. }
  destruct Hcases as [[-> _]|[Hidx _]].
  - cbn [Z.eqb negb mbind outcome_bind]. exact Hlast.
  - destruct (Z.eqb_spec idx (-1)) as [?|_]; [lia|]. cbn [negb].
    rewrite scan_down_miss; [|lia|by eauto].
    cbn [mbind outcome_bind]. rewrite scan_up_miss.
    + cbn [mbind outcome_bind]. exact Hlast.
    + apply Forall_forall. intros x Hx.
      apply list_elem_of_lookup in Hx as [j Hj]. rewrite lookup_drop in Hj.
      by eapply Hmiss.
Qed.

(** C4.  In a collection that is sorted by [Less] and whose paths are
    pairwise distinct, [fileIndex] returns the position of every member,
    and -1 for every file whose path no member has. *)
Theorem fileIndex_sorted_unique (f : TSSPFiles) :
  sort_IsSorted f = Ret true ->
  NoDup (Path <$> files f) ->
  (forall (k : nat) (tbl : tsspFile),
     files f !! k = Some tbl -> fileIndex f tbl = Ret (Z.of_nat k)) /\
  (forall tbl : tsspFile,
     Path tbl ∉ (Path <$> files f) -> fileIndex f tbl = Ret (-1)).
Proof.
  intros Hs Hnd. apply sorted_seq_sorted in Hs. split.
  - intros k tbl. by apply fileIndex_member.
  - intros tbl. by apply fileIndex_absent.
Qed.

End Facts.

(** * The model on concrete files *)

(** C2.  After [Stop], [ReadDataBlock], [ReadMetaBlock] and [BlockHeader]
    still reach the reader and return its answer, not [errFileClosed]:
    the reader below has served one more call each time. *)
Theorem stopped_block_reads_reach_reader :
  let f := Stop (Sim.file "0001-0-0-0.tssp" 1 0 0) in
  let served := set_reader f (Sim.called (reader f)) in
  stopped f = true /\
  ReadDataBlock f 0 16 [] = Ret (([], None), served) /\
  ReadMetaBlock f 0 1 0 16 1 [] = Ret (([], None), served) /\
  BlockHeader f None [] = Ret (([], None), served) /\
  ReadData f 0 16 [] = Ret (([], Some errFileClosed), f).
Proof. repeat split. Qed.

(** C1, as stated, fails: a reader takes a reference, [Remove] runs, the
    reader releases its reference.  The counter is then zero, the file
    system was never asked to unlink, and the file is still on disk. *)
Lemma last_Unref_after_Remove_leaves_file :
  let f0 := Sim.file "0001-0-0-0.tssp" 1 0 0 in
  let w0 := Sim.world ["0001-0-0-0.tssp"] false (Sim.mkRegistry 0 0 0 []) in
  exists s,
    run [OpRef; OpRemove; OpUnref] (f0, w0) = Ret s /\
    ref s.1 = 0 /\
    stopped s.1 = true /\
    removals s.2 = [] /\
    Sim.present (disk s.2) = ["0001-0-0-0.tssp"].
Proof. eexists. repeat split. Qed.

(** Two readers come and go, [Remove] runs on the idle file and unlinks it,
    a late reader changes nothing. *)
Lemma Remove_unlinks_iff_no_reader_witness :
  let f0 := Sim.file "0001-0-0-0.tssp" 1 0 0 in
  let w0 := Sim.world ["0001-0-0-0.tssp"] false (Sim.mkRegistry 0 0 0 []) in
  let pre := [OpRef; OpRef; OpUnref; OpUnref] in
  let post := [OpRef; OpUnref] in
  exists s1 s2 s3,
    run pre (f0, w0) = Ret s1 /\
    exec OpRemove s1 = Ret s2 /\
    run post s2 = Ret s3 /\
    run (pre ++ OpRemove :: post) (f0, w0) = Ret s3 /\
    ref s1.1 = 1 + readers pre /\
    0 <= readers pre /\
    Inuse s1.1 = bool_decide (readers pre ≠ 0) /\
    removals s1.2 = removals w0 /\
    removals s2.2 = (if decide (readers pre = 0)
                     then "0001-0-0-0.tssp" :: removals w0
                     else removals w0) /\
    removals s3.2 = removals s2.2.
Proof.
  intros f0 w0 pre post.
  apply (Remove_unlinks_iff_no_reader (RD := Sim.sim_reader)
           (TSSPFileName.mk 1 0 0 0 true)
           (Sim.mkReader "0001-0-0-0.tssp" 0 false 0) "/data/lock" w0 pre post).
  - reflexivity.
  - reflexivity.
  - reflexivity.
  - vm_compute. reflexivity.
Defined.

(** A stopped file hides the path its reader still has. *)
Lemma stopped_Path_Name_empty_witness :
  let f := Stop (Sim.file "0001-0-0-0.tssp" 1 0 0) in
  reader_Path (reader f) = "0001-0-0-0.tssp" /\ Path f = "" /\ Name f = "".
Proof.
  intros f. split; [reflexivity|].
  apply (stopped_Path_Name_empty f). reflexivity.
Defined.

(** Releasing the set's own reference of a fresh file traps. *)
Lemma Unref_underflow_traps_witness :
  Unref (Sim.file "0001-0-0-0.tssp" 1 0 0) = Panic "file closed".
Proof.
  apply (Unref_underflow_traps (Sim.file "0001-0-0-0.tssp" 1 0 0)).
  - reflexivity.
  - vm_compute. discriminate.
Defined.

(** [Ref] on a fresh file, before and after [Stop]. *)
Lemma Ref_noop_when_stopped_else_increments_witness :
  let f := Sim.file "0001-0-0-0.tssp" 1 0 0 in
  Ref (Stop f) = Ret (Stop f) /\
  exists f', Ref f = Ret f' /\
    ref f' = atomic_AddInt32 (ref f) 1 /\
    (int32_range (ref f) -> ref f < max_int32 -> ref f' = ref f + 1) /\
    wg f' = S (wg f) /\
    flag f' = flag f /\ name f' = name f /\ lock f' = lock f /\
    memEle f' = memEle f /\ reader f' = reader f.
Proof.
  intros f. split.
  - apply (proj1 (Ref_noop_when_stopped_else_increments (Stop f))). reflexivity.
  - apply (proj2 (Ref_noop_when_stopped_else_increments f)). reflexivity.
Defined.

(** A chunk of two segments: indices 2 and -1 are refused, index 1 is
    read by the reader, which has then served one call. *)
Lemma ReadAt_segment_range_witness :
  let f := Sim.file "0001-0-0-0.tssp" 1 0 0 in
  let cm : @ChunkMeta_t Sim.decls := [(10, 20); (21, 30)] in
  ReadAt f (Some cm) 2 None None
    = Ret ((None, Some (Errorf "segment index 2 out of range 2")), f) /\
  ReadAt f (Some cm) (-1) None None
    = Ret ((None, Some (Errorf "segment index -1 out of range 2")), f) /\
  ReadAt f (Some cm) 1 (Some [7]) None
    = Ret ((Some [7], None),
           set_reader f (Sim.mkReader "0001-0-0-0.tssp" 0 false 1)).
Proof.
  intros f cm. split; [|split].
  - apply (proj1 (ReadAt_segment_range f cm 2 None None eq_refl)).
    right. vm_compute. discriminate.
  - apply (proj1 (ReadAt_segment_range f cm (-1) None None eq_refl)).
    left. reflexivity.
  - apply (proj2 (ReadAt_segment_range f cm 1 (Some [7]) None eq_refl)).
    split; [vm_compute; discriminate | reflexivity].
Defined.


(** Two extents of sequence 1 and one file of sequence 2; a fourth file is
    not in the set. *)
Lemma fileIndex_sorted_unique_witness :
  let a := Sim.file "0001-0-0-0.tssp" 1 0 0 in
  let b := Sim.file "0001-0-0-1.tssp" 1 0 1 in
  let c := Sim.file "0002-0-0-0.tssp" 2 0 0 in
  let d := Sim.file "0003-0-0-0.tssp" 3 0 0 in
  let set := Sim.set_of [a; b; c] in
  fileIndex set a = Ret 0 /\ fileIndex set b = Ret 1 /\
  fileIndex set c = Ret 2 /\ fileIndex set d = Ret (-1).
Proof.
  intros a b c d set.
  assert (Hs : sort_IsSorted set = Ret true) by reflexivity.
  assert (Hnd : NoDup (Path <$> files set))
    by (apply (bool_decide_unpack _); vm_compute; exact I).
  destruct (fileIndex_sorted_unique set Hs Hnd) as [Hmem Habs].
  split; [|split; [|split]].
  - apply (Hmem 0%nat a). reflexivity.
  - apply (Hmem 1%nat b). reflexivity.
  - apply (Hmem 2%nat c). reflexivity.
  - apply (Habs d). apply (bool_decide_unpack _). vm_compute. exact I.
Defined.

(** * The rest of the file set *)

Section FileSetFacts.
Context {D : Decls} {RD : TSSPFileReader} {RT : Runtime}.

(** ** The order of [Less] *)

Lemma less_file_spec (a b : tsspFile) :
  less_file a b = true <->
  (LevelAndSequence a).2 < (LevelAndSequence b).2 \/
  ((LevelAndSequence a).2 = (LevelAndSequence b).2 /\
   FileNameExtend a < FileNameExtend b).
Proof.
  unfold less_file.
  destruct (Z.eqb_spec (LevelAndSequence a).2 (LevelAndSequence b).2) as [Heq|Hne];
    cbn [negb]; rewrite Z.ltb_lt; lia.
Qed.

Lemma less_file_false (a b : tsspFile) :
  less_file a b = false <->
  (LevelAndSequence b).2 < (LevelAndSequence a).2 \/
  ((LevelAndSequence a).2 = (LevelAndSequence b).2 /\
   FileNameExtend b <= FileNameExtend a).
Proof.
  rewrite <- not_true_iff_false, less_file_spec. lia.
Qed.

Lemma Less_lookup (f : TSSPFiles) (i j : nat) (a b : tsspFile) :
  files f !! i = Some a -> files f !! j = Some b ->
  Less f (Z.of_nat i) (Z.of_nat j) = Ret (less_file a b).
Proof.
  intros Ha Hb. unfold Less, less_file.
  rewrite (index_lookup _ _ _ Ha), (index_lookup _ _ _ Hb).
  cbn [mbind outcome_bind]. by destruct (negb _).
Qed.

(** X1.  On the files of a set, [Less] is a strict order on the pair
    (sequence, extent): no file is below itself, two files are never
    below each other, the order is transitive, and two files neither of
    which is below the other have the same sequence and extent. *)
Theorem Less_strict_order (f : TSSPFiles) (i j k : nat) (a b c : tsspFile) :
  files f !! i = Some a -> files f !! j = Some b -> files f !! k = Some c ->
  Less f (Z.of_nat i) (Z.of_nat i) = Ret false /\
  (Less f (Z.of_nat i) (Z.of_nat j) = Ret true ->
   Less f (Z.of_nat j) (Z.of_nat i) = Ret false) /\
  (Less f (Z.of_nat i) (Z.of_nat j) = Ret true ->
   Less f (Z.of_nat j) (Z.of_nat k) = Ret true ->
   Less f (Z.of_nat i) (Z.of_nat k) = Ret true) /\
  (Less f (Z.of_nat i) (Z.of_nat j) = Ret false ->
   Less f (Z.of_nat j) (Z.of_nat i) = Ret false ->
   (LevelAndSequence a).2 = (LevelAndSequence b).2 /\
   FileNameExtend a = FileNameExtend b).
Proof.
  intros Ha Hb Hc.
  rewrite !(Less_lookup f i i a a), !(Less_lookup f i j a b),
    !(Less_lookup f j i b a), !(Less_lookup f j k b c),
    !(Less_lookup f i k a c) by done.
  split; [|split; [|split]].
  - f_equal. apply less_file_false. lia.
  - intros [= Hab]. f_equal. apply less_file_spec in Hab.
    apply less_file_false. lia.
  - intros [= Hab] [= Hbc]. f_equal.
    apply less_file_spec in Hab, Hbc. apply less_file_spec. lia.
  - intros [= Hab] [= Hba]. apply less_file_false in Hab, Hba. lia.
Qed.

(** ** Sorted sets, globally *)

Lemma IsSorted_from_intro (f : TSSPFiles) (i : nat) :
  (i < length (files f))%nat ->
  (forall (j : nat) (x y : tsspFile),
     (j < i)%nat -> files f !! j = Some x -> files f !! S j = Some y ->
     less_file y x = false) ->
  IsSorted_from f i = Ret true.
Proof.
  induction i as [|i IH]; intros Hi Hadj; [done|].
  cbn [IsSorted_from].
  destruct (lookup_lt_is_Some_2 (files f) i) as [x Hx]; [lia|].
  destruct (lookup_lt_is_Some_2 (files f) (S i)) as [y Hy]; [lia|].
  rewrite (Less_lookup f (S i) i y x Hy Hx), (Hadj i x y) by (done || lia).
  cbn [mbind outcome_bind]. apply IH; [lia|].
  intros j x' y' Hj. apply Hadj. lia.
Qed.

Lemma sorted_lex_sorted (f : TSSPFiles) :
  sort_IsSorted f = Ret true <-> lex_sorted (files f).
Proof.
  unfold sort_IsSorted, Len. split.
  - intros Hs. pose proof (IsSorted_from_true _ _ Hs) as Hadj.
    assert (Hstep : forall (d i : nat) x y,
               files f !! i = Some x -> files f !! (i + S d)%nat = Some y ->
               less_file y x = false).
    { induction d as [|d IHd]; intros i x y Hx Hy.
      - replace (i + 1)%nat with (S i) in Hy by lia.
        specialize (Hadj i). rewrite (Less_lookup f (S i) i y x Hy Hx) in Hadj.
        assert (Ret (less_file y x) = Ret false) as [= ->]; [|done].
        apply Hadj. apply lookup_lt_Some in Hy. lia.
      - replace (i + S (S d))%nat with (S (i + S d)) in Hy by lia.
        destruct (lookup_lt_is_Some_2 (files f) (i + S d)) as [z Hz].
        { apply lookup_lt_Some in Hy. lia. }
        specialize (IHd i x z Hx Hz).
        specialize (Hadj (i + S d)%nat).
        rewrite (Less_lookup f (S (i + S d)) (i + S d) y z Hy Hz) in Hadj.
        assert (Ret (less_file y z) = Ret false) as [= Hyz].
        { apply Hadj. apply lookup_lt_Some in Hy. lia. }
        apply less_file_false in IHd, Hyz. apply less_file_false. lia. }
    intros i j a b Hij Ha Hb.
    apply (Hstep (j - S i)%nat i); [done|].
    by replace (i + S (j - S i))%nat with j by lia.
  - intros Hlex. destruct (files f) as [|f0 fs] eqn:Hfs; [done|].
    rewrite <- Hfs in *. apply IsSorted_from_intro.
    + rewrite Hfs. cbn [length]. lia.
    + intros j x y _ Hx Hy. apply (Hlex j (S j)); [lia|done|done].
Qed.

Lemma lex_sorted_delete (fs : list tsspFile) (k : nat) :
  lex_sorted fs -> lex_sorted (delete k fs).
Proof.
  intros Hlex i j a b Hij Ha Hb.
  destruct (decide (i < k)%nat); destruct (decide (j < k)%nat).
  - rewrite list_lookup_delete_lt in Ha, Hb by done. by apply (Hlex i j).
  - rewrite list_lookup_delete_lt in Ha by done.
    rewrite list_lookup_delete_ge in Hb by lia. apply (Hlex i (S j)); [lia|done|done].
  - lia.
  - rewrite list_lookup_delete_ge in Ha, Hb by lia.
    apply (Hlex (S i) (S j)); [lia|done|done].
Qed.

Lemma NoDup_Path_delete (fs : list tsspFile) (k : nat) :
  NoDup (Path <$> fs) -> NoDup (Path <$> delete k fs).
Proof.
  intros Hnd. rewrite list_fmap_delete.
  apply (sublist_NoDup _ (Path <$> fs)); [exact Hnd|apply sublist_delete].
Qed.

Lemma deleted_Path_gone (fs : list tsspFile) (k : nat) (tbl : tsspFile) :
  NoDup (Path <$> fs) -> fs !! k = Some tbl ->
  Path tbl ∉ (Path <$> delete k fs).
Proof.
  intros Hnd Hk Hin. apply list_elem_of_fmap in Hin as (y & Hp & Hy).
  apply list_elem_of_lookup in Hy as [j Hj].
  destruct (decide (j < k)%nat).
  - rewrite list_lookup_delete_lt in Hj by done.
    assert (k = j) by (by apply (Path_unique fs k j tbl y)). lia.
  - rewrite list_lookup_delete_ge in Hj by lia.
    assert (k = S j) by (by apply (Path_unique fs k (S j) tbl y)). lia.
Qed.

(** ** Lookup without the sortedness assumption *)

Lemma search_range (fs : list tsspFile) (seq : Z) :
  forall (fuel : nat) (lo hi : Z),
  0 <= lo <= hi -> hi < Z.of_nat (length fs) -> hi - lo <= Z.of_nat fuel ->
  exists idx lo',
    search fuel fs seq lo hi = Ret (idx, lo') /\
    lo <= lo' <= hi /\
    (idx = -1 \/
     (lo <= idx <= hi /\
      exists x, fs !! Z.to_nat idx = Some x /\ (LevelAndSequence x).2 = seq)).
Proof.
  induction fuel as [|fuel IH]; intros lo hi Hlo Hhi Hfuel.
  - assert (lo = hi) as -> by lia. cbn [search]. rewrite Z.ltb_irrefl.
    exists (-1), hi. split; [done|]. split; [lia|]. by left.
  - cbn [search]. destruct (Z.ltb_spec lo hi) as [Hlt|Hge].
    2:{ exists (-1), lo. split; [done|]. split; [lia|]. by left. }
    set (mid := (lo + hi) `quot` 2).
    assert (Hmid : lo <= mid < hi)
      by (subst mid; Z.to_euclidean_division_equations; lia).
    destruct (index_in_range fs mid) as (fm & Hfm & ->); [lia|].
    cbn [mbind outcome_bind].
    destruct (Z.eqb_spec seq (LevelAndSequence fm).2) as [Heq|Hne].
    { exists mid, lo. split; [done|]. split; [lia|]. right.
      split; [lia|]. by exists fm. }
    destruct (Z.ltb_spec seq (LevelAndSequence fm).2) as [Hlt'|Hgt'].
    + destruct (IH lo mid) as (idx & lo' & -> & Hlo' & Hcases); try lia.
      exists idx, lo'. split; [done|]. split; [lia|].
      destruct Hcases as [->|[Hidx Hx]]; [by left|right]. split; [lia|done].
    + destruct (IH (mid + 1) hi) as (idx & lo' & -> & Hlo' & Hcases); try lia.
      exists idx, lo'. split; [done|]. split; [lia|].
      destruct Hcases as [->|[Hidx Hx]]; [by left|right]. split; [lia|done].
Qed.

(** A path no member has is never found, sorted set or not. *)
Lemma fileIndex_no_path (f : TSSPFiles) (tbl : tsspFile) :
  Path tbl ∉ (Path <$> files f) -> fileIndex f tbl = Ret (-1).
Proof.
  intros Habs. unfold fileIndex.
  destruct (Z.eqb_spec (Z.of_nat (length (files f))) 0) as [Hz|Hnz]; [done|].
  assert (Hmiss : forall (j : nat) (x : tsspFile),
             files f !! j = Some x -> Path x ≠ Path tbl).
  { intros j x Hx Hp. apply Habs. rewrite <- Hp.
    apply list_elem_of_fmap. exists x. split; [done|].
    by apply list_elem_of_lookup_2 in Hx. }
  set (seq := (LevelAndSequence tbl).2).
  destruct (search_range (files f) seq (length (files f)) 0 (Len f - 1))
    as (idx & lo' & -> & Hlo' & Hcases); unfold Len in *; try lia.
  cbn [mbind outcome_bind].
  assert (Hlast :
    (fl ← index (files f) lo';
     if String.eqb (Path fl) (Path tbl) then Ret lo' else Ret (-1))
    = Ret (-1)).
  { destruct (index_in_range (files f) lo') as (fl & Hfl & ->); [lia|].
    cbn [mbind outcome_bind].
    pose proof (Hmiss _ fl Hfl) as Hne. apply String.eqb_neq in Hne.
    by rewrite Hne. }
  destruct Hcases as [->|[Hidx _]].
  - cbn [Z.eqb negb mbind outcome_bind]. exact Hlast.
  - destruct (Z.eqb_spec idx (-1)) as [?|_]; [lia|]. cbn [negb].
    rewrite scan_down_miss; [|lia|by eauto].
    cbn [mbind outcome_bind]. rewrite scan_up_miss.
    + cbn [mbind outcome_bind]. exact Hlast.
    + apply Forall_forall. intros x Hx.
      apply list_elem_of_lookup in Hx as [j Hj]. rewrite lookup_drop in Hj.
      by eapply Hmiss.
Qed.

Lemma deleteFile_at (f : TSSPFiles) (tbl : tsspFile) (k : nat) :
  fileIndex f tbl = Ret (Z.of_nat k) -> (k < length (files f))%nat ->
  deleteFile f tbl
  = Ret (mkFiles (files_ref f) (closing f) (delete k (files f))).
Proof.
  intros Hidx Hk. unfold deleteFile, Len. rewrite Hidx.
  cbn [mbind outcome_bind].
  destruct (Z.ltb_spec (Z.of_nat k) 0); [lia|].
  destruct (Z.geb_spec (Z.of_nat k) (Z.of_nat (length (files f)))); [lia|].
  cbn [orb]. rewrite delete_take_drop, Nat2Z.id.
  by replace (Z.to_nat (Z.of_nat k + 1)) with (S k) by lia.
Qed.

(** ** Deleting and appending *)

(** X2.  In a sorted set with distinct paths, [deleteFile] on a member
    removes that member and nothing else; the set stays sorted with
    distinct paths, and the file is no longer found in it. *)
Theorem deleteFile_member (f : TSSPFiles) (k : nat) (tbl : tsspFile) :
  sort_IsSorted f = Ret true ->
  NoDup (Path <$> files f) ->
  files f !! k = Some tbl ->
  exists f',
    deleteFile f tbl = Ret f' /\
    files f' = delete k (files f) /\
    Len f' = Len f - 1 /\
    files_ref f' = files_ref f /\ closing f' = closing f /\
    sort_IsSorted f' = Ret true /\
    NoDup (Path <$> files f') /\
    fileIndex f' tbl = Ret (-1).
Proof.
  intros Hs Hnd Hk.
  pose proof (lookup_lt_Some _ _ _ Hk) as Hlen.
  eexists. split.
  { apply deleteFile_at; [|done].
    apply fileIndex_member; [by apply sorted_seq_sorted|done..]. }
  cbn [files files_ref closing]. repeat split.
  - unfold Len. cbn [files]. rewrite length_delete by eauto. lia.
  - apply sorted_lex_sorted. cbn [files].
    by apply lex_sorted_delete, sorted_lex_sorted.
  - by apply NoDup_Path_delete.
  - apply fileIndex_no_path. cbn [files]. by apply deleted_Path_gone.
Qed.

(** X3.  [deleteFile] on a file whose path no member has traps with
    "file not file, <path>"; so it does on the empty set. *)
Theorem deleteFile_absent_traps (f : TSSPFiles) (tbl : tsspFile) :
  Path tbl ∉ (Path <$> files f) ->
  deleteFile f tbl = Panic ("file not file, " +:+ Path tbl).
Proof.
  intros Habs. unfold deleteFile. rewrite fileIndex_no_path by done.
  reflexivity.
Qed.

Lemma lex_sorted_snoc (fs : list tsspFile) (x : tsspFile) :
  lex_sorted fs ->
  (forall l, last fs = Some l -> less_file x l = false) ->
  lex_sorted (fs ++ [x]).
Proof.
  intros Hlex Hlast i j a b Hij Ha Hb.
  destruct (decide (j < length fs)%nat) as [Hj|Hj].
  - rewrite lookup_app_l in Ha, Hb by lia. by apply (Hlex i j).
  - assert (j = length fs) as ->.
    { apply lookup_lt_Some in Hb. rewrite length_app in Hb. cbn in Hb. lia. }
    rewrite lookup_app_l in Ha by lia.
    rewrite lookup_app_r, Nat.sub_diag in Hb by lia. injection Hb as <-.
    destruct (lookup_lt_is_Some_2 fs (pred (length fs))) as [l Hl]; [lia|].
    specialize (Hlast l). rewrite last_lookup in Hlast.
    specialize (Hlast Hl).
    destruct (decide (i = pred (length fs))) as [->|Hne].
    + by assert (a = l) as -> by congruence.
    + pose proof (Hlex i (pred (length fs)) a l ltac:(lia) Ha Hl) as Hla.
      apply less_file_false in Hlast, Hla. apply less_file_false. lia.
Qed.

(** X4.  Appending a file that is not below the last one, with a path no
    member has, keeps the set sorted with distinct paths; the new file is
    found at the old length, and deleting it gives the old set back. *)
Theorem Append_then_lookup_delete (f : TSSPFiles) (x : tsspFile) :
  sort_IsSorted f = Ret true ->
  NoDup (Path <$> files f) ->
  Path x ∉ (Path <$> files f) ->
  (forall l, last (files f) = Some l -> less_file x l = false) ->
  sort_IsSorted (Append f x) = Ret true /\
  NoDup (Path <$> files (Append f x)) /\
  fileIndex (Append f x) x = Ret (Len f) /\
  deleteFile (Append f x) x = Ret f.
Proof.
  intros Hs Hnd Hfresh Hlast.
  assert (Hs' : sort_IsSorted (Append f x) = Ret true).
  { apply sorted_lex_sorted. cbn [Append files].
    apply lex_sorted_snoc; [by apply sorted_lex_sorted|done]. }
  assert (Hnd' : NoDup (Path <$> files (Append f x))).
  { cbn [Append files]. rewrite fmap_app. apply NoDup_app.
    split; [done|]. split; [|apply NoDup_singleton].
    intros p Hp Hpx. apply list_elem_of_singleton in Hpx as ->. done. }
  assert (Hx : files (Append f x) !! length (files f) = Some x).
  { cbn [Append files]. by rewrite lookup_app_r, Nat.sub_diag by lia. }
  assert (Hidx : fileIndex (Append f x) x = Ret (Len f)).
  { apply fileIndex_member; [by apply sorted_seq_sorted|done..]. }
  repeat split; try done.
  rewrite (deleteFile_at _ _ (length (files f))); [|done|].
  - cbn [Append files files_ref closing].
    rewrite (delete_middle (files f) [] x), app_nil_r. by destruct f.
  - cbn [Append files]. rewrite length_app. cbn. lia.
Qed.

(** ** Swapping *)

Lemma index_Ret {A : Type} (s : list A) (i : Z) (x : A) :
  index s i = Ret x -> 0 <= i /\ s !! Z.to_nat i = Some x.
Proof.
  unfold index. destruct (Z.ltb_spec i 0); [done|].
  destruct (s !! Z.to_nat i) eqn:Hl; [|done]. by intros [= ->].
Qed.

Lemma fullCompacted_all_equal (f : TSSPFiles) :
  fullCompacted f = true <->
  forall x y : tsspFile,
    x ∈ files f -> y ∈ files f -> LevelAndSequence x = LevelAndSequence y.
Proof.
  unfold fullCompacted.
  destruct (files f) as [|f0 rest] eqn:Hfs.
  { cbn. split; [|done]. intros _ x y Hx. by apply not_elem_of_nil in Hx. }
  destruct (Z.leb_spec (Z.of_nat (length (f0 :: rest))) 1) as [Hle|Hgt].
  { destruct rest; [|cbn in Hle; lia]. split; [|done].
    intros _ x y Hx Hy. apply list_elem_of_singleton in Hx, Hy. congruence. }
  destruct (LevelAndSequence f0) as [lv seq] eqn:Hf0.
  rewrite fullCompacted_loop_spec, Forall_forall. split.
  - intros [_ Hall] x y Hx Hy.
    assert (Hc : forall z, z ∈ f0 :: rest -> LevelAndSequence z = (lv, seq)).
    { intros z [->|Hz]%elem_of_cons; [done|by apply Hall]. }
    by rewrite (Hc x), (Hc y).
  - intros Hall. split; [done|]. intros z Hz. rewrite <- Hf0.
    apply Hall; [by right|by left].
Qed.

(** X5.  [Swap] exchanges the files at two positions and nothing else:
    the result is a permutation of the set, a second [Swap] of the same
    positions undoes it, and the fully-compacted test does not notice. *)
Theorem Swap_exchanges (f f' : TSSPFiles) (i j : Z) :
  Swap f i j = Ret f' ->
  files f' !! Z.to_nat i = files f !! Z.to_nat j /\
  files f' !! Z.to_nat j = files f !! Z.to_nat i /\
  files f' ≡ₚ files f /\
  Swap f' i j = Ret f /\
  fullCompacted f' = fullCompacted f.
Proof.
  unfold Swap. intros Hsw.
  destruct (index (files f) j) as [b| |] eqn:Hj; cbn in Hsw; try done.
  destruct (index (files f) i) as [a| |] eqn:Hi; cbn in Hsw; try done.
  injection Hsw as <-. cbn [files files_ref closing].
  apply index_Ret in Hi as [Hi0 Hi], Hj as [Hj0 Hj].
  set (ni := Z.to_nat i) in *. set (nj := Z.to_nat j) in *.
  pose proof (lookup_lt_Some _ _ _ Hi) as Hli.
  pose proof (lookup_lt_Some _ _ _ Hj) as Hlj.
  assert (Hperm : <[nj:=a]> (<[ni:=b]> (files f)) ≡ₚ files f)
    by (by apply Permutation_insert_swap).
  assert (Hati : <[nj:=a]> (<[ni:=b]> (files f)) !! ni = Some b).
  { destruct (decide (ni = nj)) as [Heq|Hne].
    - rewrite <- Heq in *. assert (a = b) as -> by congruence.
      apply list_lookup_insert_eq. by rewrite length_insert.
    - rewrite list_lookup_insert_ne by done. by apply list_lookup_insert_eq. }
  assert (Hatj : <[nj:=a]> (<[ni:=b]> (files f)) !! nj = Some a).
  { apply list_lookup_insert_eq. by rewrite length_insert. }
  split; [by rewrite Hati, Hj|]. split; [by rewrite Hatj, Hi|].
  split; [done|]. split.
  - rewrite <- (Z2Nat.id i), <- (Z2Nat.id j) by lia. fold ni nj.
    rewrite (index_lookup _ _ _ Hatj), (index_lookup _ _ _ Hati).
    cbn [mbind outcome_bind].
    replace (<[nj:=b]> (<[ni:=a]> (<[nj:=a]> (<[ni:=b]> (files f)))))
      with (files f); [by destruct f|].
    apply list_eq. intros k.
    rewrite !list_lookup_insert, !length_insert.
    repeat case_decide; destruct_and?; simplify_eq; try done; try lia;
      congruence.
  - apply eq_true_iff_eq. rewrite !fullCompacted_all_equal. cbn [files].
    split; intros Hall x y Hx Hy; apply Hall.
    all: first [by rewrite Hperm | by rewrite <- Hperm].
Qed.

(** X6.  Deleting a file from a fully compacted set leaves a fully
    compacted set. *)
Theorem fullCompacted_deleteFile (f f' : TSSPFiles) (tbl : tsspFile) :
  deleteFile f tbl = Ret f' ->
  fullCompacted f = true -> fullCompacted f' = true.
Proof.
  unfold deleteFile. intros Hdel.
  destruct (fileIndex f tbl) as [idx| |]; cbn in Hdel; try done.
  destruct (_ || _); [done|]. injection Hdel as <-.
  rewrite !fullCompacted_all_equal. cbn [files].
  intros Hall x y Hx Hy. apply Hall.
  - apply elem_of_app in Hx as [Hx|Hx];
      [by eapply subseteq_take|by eapply subseteq_drop].
  - apply elem_of_app in Hy as [Hy|Hy];
      [by eapply subseteq_take|by eapply subseteq_drop].
Qed.

(** ** Stopping a whole set *)

Lemma index_fmap {A B : Type} (g : A -> B) (s : list A) (i : Z) :
  index (g <$> s) i = (x ← index s i; Ret (g x)).
Proof.
  unfold index. destruct (i <? 0); [done|].
  rewrite list_lookup_fmap. by destruct (s !! Z.to_nat i).
Qed.

Lemma Less_StopFiles (f : TSSPFiles) (i j : Z) :
  Less (StopFiles f) i j = Less f i j.
Proof.
  unfold Less, StopFiles. cbn [files]. rewrite !index_fmap.
  destruct (index (files f) i) as [a| |]; cbn [mbind outcome_bind]; try done.
  destruct (index (files f) j) as [b| |]; cbn [mbind outcome_bind]; done.
Qed.

Lemma Stop_Path_Name (x : tsspFile) :
  stopped x = true -> Path x = "" /\ Name x = "".
Proof. intros Hs. unfold Path, Name. by rewrite Hs. Qed.

(** X7.  [StopFiles] stops every file of the set (each flag below its last
    value): afterwards every member reports an empty path and name.  The
    set keeps its length, its order and its fully-compacted status, and
    the closing counter goes up by one. *)
Theorem StopFiles_stops_all (f : TSSPFiles) :
  Forall (fun x => 0 <= flag x < 2 ^ 32 - 1) (files f) ->
  - 2 ^ 63 <= closing f < 2 ^ 63 - 1 ->
  Forall (fun x => stopped x = true /\ Path x = "" /\ Name x = "")
    (files (StopFiles f)) /\
  Len (StopFiles f) = Len f /\
  sort_IsSorted (StopFiles f) = sort_IsSorted f /\
  fullCompacted (StopFiles f) = fullCompacted f /\
  closing (StopFiles f) = closing f + 1.
Proof.
  intros Hflags Hclosing. split; [|split; [|split; [|split]]].
  - cbn [StopFiles files]. apply Forall_fmap.
    eapply Forall_impl; [exact Hflags|]. intros x Hx. cbn.
    pose proof (Stop_stopped x Hx) as Hs. split; [done|].
    by apply Stop_Path_Name.
  - unfold Len. cbn [StopFiles files]. by rewrite length_fmap.
  - unfold sort_IsSorted.
    replace (Len (StopFiles f)) with (Len f)
      by (unfold Len; cbn [StopFiles files]; by rewrite length_fmap).
    generalize (Z.to_nat (Len f - 1)). intros n.
    induction n as [|n IH]; [done|]. cbn [IsSorted_from].
    by rewrite Less_StopFiles, IH.
  - apply eq_true_iff_eq. rewrite !fullCompacted_all_equal.
    cbn [StopFiles files]. split.
    + intros Hall x y Hx Hy.
      apply (Hall (Stop x) (Stop y)); by apply list_elem_of_fmap_2.
    + intros Hall x y Hx Hy.
      apply list_elem_of_fmap in Hx as (x' & -> & Hx').
      apply list_elem_of_fmap in Hy as (y' & -> & Hy').
      by apply (Hall x' y').
  - cbn [StopFiles closing]. unfold atomic_AddInt64, wrap_int64.
    rewrite Z.mod_small by lia. lia.
Qed.

(** X8.  In a non-empty set whose files are all stopped, every stopped
    file is "found", member or not: paths are compared, and they are all
    empty.  [fileIndex] returns a position of the set, never -1, and
    [deleteFile] removes the file at that position instead of trapping. *)
Theorem fileIndex_stopped_set (f : TSSPFiles) (tbl : tsspFile) :
  files f ≠ [] ->
  Forall (fun x => stopped x = true) (files f) ->
  stopped tbl = true ->
  exists i : nat,
    (i < length (files f))%nat /\
    fileIndex f tbl = Ret (Z.of_nat i) /\
    deleteFile f tbl
    = Ret (mkFiles (files_ref f) (closing f) (delete i (files f))).
Proof.
  intros Hne Hall Htbl.
  assert (Hlen : (0 < length (files f))%nat)
    by (destruct (files f); [done|cbn; lia]).
  assert (Hp : forall (j : nat) (x : tsspFile),
             files f !! j = Some x -> Path x = Path tbl).
  { intros j x Hx. rewrite Forall_lookup in Hall.
    destruct (Stop_Path_Name x (Hall j x Hx)) as [-> _].
    by destruct (Stop_Path_Name tbl Htbl) as [-> _]. }
  assert (exists i : nat,
             (i < length (files f))%nat /\ fileIndex f tbl = Ret (Z.of_nat i))
    as (i & Hi & Hidx).
  { unfold fileIndex.
    destruct (Z.eqb_spec (Z.of_nat (length (files f))) 0) as [?|_]; [lia|].
    set (seq := (LevelAndSequence tbl).2).
    destruct (search_range (files f) seq (length (files f)) 0 (Len f - 1))
      as (idx & lo' & -> & Hlo' & Hcases); unfold Len in *; try lia.
    cbn [mbind outcome_bind].
    destruct Hcases as [->|[Hidx (x & Hx & Hxs)]].
    - cbn [Z.eqb negb mbind outcome_bind].
      destruct (index_in_range (files f) lo') as (fl & Hfl & ->); [lia|].
      cbn [mbind outcome_bind].
      rewrite (Hp _ _ Hfl), String.eqb_refl.
      exists (Z.to_nat lo'). split; [lia|]. by rewrite Z2Nat.id by lia.
    - destruct (Z.eqb_spec idx (-1)) as [?|_]; [lia|]. cbn [negb].
      rewrite scan_down_unfold, (index_lookup _ _ _ Hx).
      cbn [mbind outcome_bind].
      rewrite Hxs, Z.eqb_refl, (Hp _ _ Hx), String.eqb_refl.
      cbn [negb mbind outcome_bind].
      exists (Z.to_nat idx). split; [lia|]. done. }
  exists i. split; [done|]. split; [done|]. by apply deleteFile_at.
Qed.

(** ** Lookup on any set *)

Lemma scan_down_sound (fs : list tsspFile) (seq : Z) (path : string) (i : nat) :
  (i < length fs)%nat ->
  exists r,
    scan_down fs seq path i = Ret r /\
    forall k, r = Some k ->
      exists (n : nat) (x : tsspFile),
        k = Z.of_nat n /\ fs !! n = Some x /\ Path x = path.
Proof.
  induction i as [|i IH]; intros Hi; rewrite scan_down_unfold.
  all: destruct (lookup_lt_is_Some_2 fs _ Hi) as [x Hx].
  all: rewrite (index_lookup _ _ _ Hx); cbn [mbind outcome_bind].
  all: destruct (negb _); [by eexists|].
  all: destruct (String.eqb_spec (Path x) path) as [Hp|Hp].
  - eexists. split; [done|]. intros k [= <-]. by exists 0%nat, x.
  - by eexists.
  - eexists. split; [done|]. intros k [= <-]. by exists (S i), x.
  - apply IH. lia.
Qed.

Lemma scan_up_sound (seq : Z) (path : string) (rest : list tsspFile) :
  forall (i k : Z),
  scan_up seq path rest i = Some k ->
  exists (d : nat) (x : tsspFile),
    k = i + Z.of_nat d /\ rest !! d = Some x /\ Path x = path.
Proof.
  induction rest as [|y rest IH]; intros i k; cbn [scan_up]; [done|].
  destruct (negb _); [done|].
  destruct (String.eqb_spec (Path y) path) as [Hp|Hp].
  - intros [= <-]. exists 0%nat, y. split; [lia|done].
  - intros Hk. destruct (IH _ _ Hk) as (d & x & -> & Hx & Hpx).
    exists (S d), x. split; [lia|done].
Qed.

Lemma fileIndex_sound_aux (f : TSSPFiles) (tbl : tsspFile) :
  exists r,
    fileIndex f tbl = Ret r /\
    (r = -1 \/
     exists (n : nat) (x : tsspFile),
       r = Z.of_nat n /\ files f !! n = Some x /\ Path x = Path tbl).
Proof.
  unfold fileIndex.
  destruct (Z.eqb_spec (Z.of_nat (length (files f))) 0) as [Hz|Hnz];
    [exists (-1); by split; [|left]|].
  set (seq := (LevelAndSequence tbl).2).
  destruct (search_range (files f) seq (length (files f)) 0 (Len f - 1))
    as (idx & lo' & -> & Hlo' & Hcases); unfold Len in *; try lia.
  cbn [mbind outcome_bind].
  assert (Hlast : exists r,
    (fl ← index (files f) lo';
     if String.eqb (Path fl) (Path tbl) then Ret lo' else Ret (-1)) = Ret r /\
    (r = -1 \/
     exists (n : nat) (x : tsspFile),
       r = Z.of_nat n /\ files f !! n = Some x /\ Path x = Path tbl)).
  { destruct (index_in_range (files f) lo') as (fl & Hfl & ->); [lia|].
    cbn [mbind outcome_bind].
    destruct (String.eqb_spec (Path fl) (Path tbl)) as [Hp|Hp].
    - exists lo'. split; [done|]. right. exists (Z.to_nat lo'), fl.
      split; [lia|done].
    - exists (-1). by split; [|left]. }
  destruct (Z.eqb_spec idx (-1)) as [->|Hidx]; cbn [negb mbind outcome_bind];
    [exact Hlast|].
  destruct Hcases as [?|[Hrange _]]; [done|].
  destruct (scan_down_sound (files f) seq (Path tbl) (Z.to_nat idx))
    as (d & -> & Hd); [lia|].
  cbn [mbind outcome_bind]. destruct d as [k|].
  - cbn [mbind outcome_bind]. exists k. split; [done|]. right.
    by apply Hd.
  - cbn [mbind outcome_bind].
    destruct (scan_up seq (Path tbl) (drop (Z.to_nat (idx + 1)) (files f))
                (idx + 1)) as [k|] eqn:Hup; [|exact Hlast].
    apply scan_up_sound in Hup as (d & x & -> & Hx & Hp).
    rewrite lookup_drop in Hx.
    exists (idx + 1 + Z.of_nat d). split; [done|]. right.
    exists (Z.to_nat (idx + 1) + d)%nat, x. split; [lia|done].
Qed.

(** X20.  On any set, sorted or not, [fileIndex] returns without
    trapping, and what it returns is either -1 or the position of a
    member that has the path of the file asked for. *)
Theorem fileIndex_sound (f : TSSPFiles) (tbl : tsspFile) :
  exists r,
    fileIndex f tbl = Ret r /\
    (r = -1 \/
     exists (n : nat) (x : tsspFile),
       r = Z.of_nat n /\ files f !! n = Some x /\ Path x = Path tbl).
Proof. apply fileIndex_sound_aux. Qed.

(** X21.  On any set, [deleteFile] either removes exactly one member, one
    that has the path of the file asked for, or traps with "file not
    file, <path>" and removes nothing. *)
Theorem deleteFile_removes_one_or_traps (f : TSSPFiles) (tbl : tsspFile) :
  (exists (n : nat) (x : tsspFile),
     files f !! n = Some x /\ Path x = Path tbl /\
     deleteFile f tbl
     = Ret (mkFiles (files_ref f) (closing f) (delete n (files f)))) \/
  deleteFile f tbl = Panic ("file not file, " +:+ Path tbl).
Proof.
  destruct (fileIndex_sound_aux f tbl) as (r & Hr & [->|(n & x & -> & Hx & Hp)]).
  - right. unfold deleteFile. by rewrite Hr.
  - left. exists n, x. split; [done|]. split; [done|].
    apply deleteFile_at; [done|]. by apply lookup_lt_Some in Hx.
Qed.

(** ** Readers before any [Remove] *)

Lemma run_unbalanced_traps (ops : list op) :
  forall (held : nat) (f : tsspFile) (w : World),
  no_Remove ops = true ->
  balanced held ops = false ->
  flag f = 0 -> ref f = 1 + Z.of_nat held -> wg f = held ->
  1 + Z.of_nat held + Z.of_nat (length ops) <= max_int32 ->
  run ops (f, w) = Panic "file closed".
Proof.
  induction ops as [|o ops IH]; intros held f w Hnr Hbal Hfl Href Hwg Hlen;
    [done|].
  assert (Hst : stopped f = false) by (apply stopped_false; lia).
  destruct o; cbn in Hnr; [| |done]; cbn [run exec fst snd].
  - unfold Ref. rewrite Hst. cbn [mbind outcome_bind].
    rewrite atomic_AddInt32_exact
      by (unfold int32_range, min_int32, max_int32 in *; cbn [length] in Hlen; lia).
    apply (IH (S held)); cbn; cbn [length] in Hlen; try done; lia.
  - unfold Unref. cbn [ref set_ref].
    rewrite atomic_AddInt32_exact
      by (unfold int32_range, min_int32, max_int32 in *; cbn [length] in Hlen; lia).
    destruct held as [|held].
    + destruct (Z.leb_spec (ref f + -1) 0) as [_|?]; [|lia].
      replace (stopped (set_ref f _)) with (stopped f) by reflexivity.
      by rewrite Hst.
    + cbn in Hbal.
      destruct (Z.leb_spec (ref f + -1) 0) as [?|_]; [lia|].
      unfold wg_Done. cbn [wg set_ref]. rewrite Hwg. cbn [mbind outcome_bind].
      apply (IH held); cbn; cbn [length] in Hlen; try done; lia.
Qed.

(** X22.  On a freshly opened file, a sequence of [Ref] and [Unref] runs
    to its end exactly when no prefix releases more references than it
    took; the counter then stands at one plus the references still held,
    and the wait-group at the references still held.  Otherwise the first
    [Unref] too many traps with "file closed". *)
Theorem run_completes_iff_balanced (fileName : TSSPFileName.t) (fr : Reader)
    (lk : option string) (w : World) (ops : list op) :
  let f0 := OpenTSSPFile_result fileName fr lk in
  no_Remove ops = true ->
  Z.of_nat (length ops) < max_int32 ->
  (balanced 0 ops = true ->
   exists f',
     run ops (f0, w) = Ret (f', w) /\
     ref f' = 1 + readers ops /\ Z.of_nat (wg f') = readers ops /\
     stopped f' = false) /\
  (balanced 0 ops = false -> run ops (f0, w) = Panic "file closed").
Proof.
  intros f0 Hnr Hlen. split; intros Hbal.
  - destruct (run_before_Remove ops 0 f0 w)
      as (f' & Hrun & Hfl & Href & Hwg & _); try done; [cbn; lia|].
    exists f'. split; [done|]. cbn [Z.of_nat] in *.
    repeat split; try lia. apply stopped_false. lia.
  - apply (run_unbalanced_traps ops 0 f0 w); try done. cbn. lia.
Qed.

End FileSetFacts.

(** * The rest of the table file *)

(** Side conditions on the fixed-width counters. *)
Ltac word_bounds :=
  unfold int32_range, uint32_range, min_int32, max_int32 in *;
  cbn [length] in *; lia.

Section FileMoreFacts.
Context {D : Decls} {RD : TSSPFileReader} {RT : Runtime}
        {RDM : TSSPFileReaderMore} {RTM : RuntimeMore}.

Lemma atomic_AddUint32_exact (x delta : Z) :
  uint32_range (x + delta) -> atomic_AddUint32 x delta = x + delta.
Proof. apply wrap_uint32_id. Qed.

(** ** [FileOperation] *)

(** X9.  On a file that is not stopped, [FileOperation] brackets the
    closure with [Ref]/[RefFileReader] and [UnrefFileReader]/[Unref]: when
    the closure leaves the counters and the flag alone, the file comes
    back with the counter and the wait-group it had, and the reader's pin
    released. *)
Theorem FileOperation_balanced (f f2 : tsspFile)
    (op : tsspFile -> outcome tsspFile) :
  stopped f = false ->
  0 < ref f < max_int32 ->
  op (RefFileReader (wg_Add1 (set_ref f (ref f + 1)))) = Ret f2 ->
  ref f2 = ref f + 1 -> wg f2 = S (wg f) -> flag f2 = flag f ->
  exists f',
    FileOperation f (Some op) = Ret f' /\
    ref f' = ref f /\ wg f' = wg f /\ flag f' = flag f /\
    reader f' = reader_Unref (reader f2) /\
    name f' = name f2 /\ lock f' = lock f2 /\ memEle f' = memEle f2.
Proof.
  intros Hs Href Hop Hr2 Hw2 Hf2. unfold FileOperation, Ref. rewrite Hs.
  rewrite atomic_AddInt32_exact by word_bounds.
  cbn [mbind outcome_bind]. rewrite Hop. cbn [mbind outcome_bind].
  assert (Hs2 : stopped f2 = false) by (unfold stopped in *; by rewrite Hf2).
  unfold UnrefFileReader. rewrite Hs2. unfold Unref. cbn [ref set_ref set_reader].
  rewrite Hr2, atomic_AddInt32_exact by word_bounds.
  destruct (Z.leb_spec (ref f + 1 + -1) 0); [lia|].
  unfold wg_Done. cbn [wg set_ref set_reader]. rewrite Hw2.
  eexists. split; [reflexivity|]. cbn. repeat split; try done. lia.
Qed.

(** X10.  On a stopped file that only its set still references,
    [FileOperation] is not balanced: [Ref] does nothing but [Unref] still
    decrements, and [RefFileReader] pins the reader but [UnrefFileReader]
    does not release it.  The counter comes back one lower, and the
    reader as the closure left it, pin included. *)
Theorem FileOperation_stopped_unbalanced (f f2 : tsspFile)
    (op : tsspFile -> outcome tsspFile) :
  stopped f = true ->
  min_int32 < ref f <= 1 ->
  op (set_reader f (reader_Ref (reader f))) = Ret f2 ->
  ref f2 = ref f -> flag f2 = flag f ->
  FileOperation f (Some op) = Ret (set_ref f2 (ref f - 1)).
Proof.
  intros Hs Href Hop Hr2 Hf2. unfold FileOperation, Ref. rewrite Hs.
  cbn [mbind outcome_bind]. unfold RefFileReader. rewrite Hop.
  cbn [mbind outcome_bind].
  assert (Hs2 : stopped f2 = true) by (unfold stopped in *; by rewrite Hf2).
  unfold UnrefFileReader. rewrite Hs2. unfold Unref. cbn [ref set_ref].
  rewrite Hr2, atomic_AddInt32_exact by word_bounds.
  destruct (Z.leb_spec (ref f + -1) 0); [|lia].
  replace (stopped (set_ref f2 _)) with (stopped f2) by reflexivity.
  rewrite Hs2. do 2 f_equal.
Qed.

(** ** [Close] *)

(** X11.  [Close] on a file with [n] readers, the wait-group counting
    them.  Its own [Unref] uses up one unit of the wait-group, so with at
    most one reader it returns without waiting, the file stopped and the
    reader closed, the counter left at [n]; with two or more it waits.
    When it returns, the level's memory counters and the eviction list
    are updated exactly for a file that has cached bytes and is not a
    temporary file; the file system is not touched. *)
Theorem Close_outcome (f : tsspFile) (w : World) (n : nat) :
  let memSize := reader_InMemSize (reader f) in
  let level := TSSPFileName.level (name f) in
  let order := TSSPFileName.order (name f) in
  let tmp := IsTempleFile (filepath_Base (reader_Path (reader f))) in
  0 <= flag f < 2 ^ 32 - 1 ->
  ref f = 1 + Z.of_nat n -> wg f = n -> 1 + Z.of_nat n <= max_int32 ->
  ((n <= 1)%nat ->
   exists f' w',
     Close f w = Ret (None, f', w') /\
     stopped f' = true /\ ref f' = Z.of_nat n /\ wg f' = 0%nat /\
     reader f' = (reader_Close (reader f)).1 /\
     disk w' = disk w /\ removals w' = removals w /\
     (if (memSize >? 0) && negb tmp
      then memEle f' = None /\
           registry w' = accounted (registry w) level memSize order (memEle f)
      else memEle f' = memEle f /\ registry w' = registry w)) /\
  ((2 <= n)%nat -> Close f w = Blocked).
Proof.
  destruct f as [wg0 nm rf fl lk0 me rd]. cbv zeta.
  cbn [reader name ref wg flag memEle]. intros Hfl -> -> Hmax.
  unfold Close, Stop, Unref, set_flag, set_ref.
  cbn [ref wg name flag lock memEle reader].
  rewrite atomic_AddUint32_exact by word_bounds.
  rewrite atomic_AddInt32_exact by word_bounds.
  replace (1 + Z.of_nat n + -1) with (Z.of_nat n) by lia.
  assert (Hst : forall a b c d e g,
             stopped (mkFile a b c (fl + 1) d e g) = true).
  { intros. apply stopped_true. cbn. lia. }
  split; intros Hn.
  - destruct n as [|[|n]]; [| |lia].
    + cbn [Z.of_nat Z.leb]. rewrite Hst.
      cbn [mbind outcome_bind wg_Wait wg set_reader reader].
      destruct (_ && _).
      * unfold RemoveFromEvictList, accounted. cbn [memEle].
        destruct me; do 2 eexists; (split; [reflexivity|]);
          cbn; repeat split; try done; apply stopped_true; cbn; lia.
      * do 2 eexists. split; [reflexivity|].
        cbn; repeat split; try done; apply stopped_true; cbn; lia.
    + cbn [Z.of_nat Z.leb Pos.leb Pos.compare Pos.compare_cont].
      change (Z.pos (Pos.of_succ_nat 0) <=? 0) with false.
      cbn [wg_Done wg mbind outcome_bind wg_Wait set_wg set_reader reader
           name flag lock memEle ref].
      destruct (_ && _).
      * unfold RemoveFromEvictList, accounted. cbn [memEle].
        destruct me; do 2 eexists; (split; [reflexivity|]);
          cbn; repeat split; try done; apply stopped_true; cbn; lia.
      * do 2 eexists. split; [reflexivity|].
        cbn; repeat split; try done; apply stopped_true; cbn; lia.
  - destruct n as [|[|n]]; [lia|lia|].
    destruct (Z.leb_spec (Z.of_nat (S (S n))) 0); [lia|].
    reflexivity.
Qed.

Lemma Close_idle (f : tsspFile) (w : World) :
  0 <= flag f < 2 ^ 32 - 1 -> ref f = 1 -> wg f = 0%nat ->
  exists f1 w1,
    Close f w = Ret (None, f1, w1) /\
    ref f1 = 0 /\ flag f1 = flag f + 1 /\
    removals w1 = removals w /\ disk w1 = disk w.
Proof.
  destruct f as [wg0 nm rf fl lk0 me rd].
  cbn [ref wg flag]. intros Hfl -> ->.
  unfold Close, Stop, Unref, set_flag, set_ref.
  cbn [ref wg name flag lock memEle reader].
  rewrite atomic_AddUint32_exact by word_bounds.
  rewrite atomic_AddInt32_exact by word_bounds.
  change (1 + -1 <=? 0) with true. cbn match.
  assert (Hst : forall a b c d e g,
             stopped (mkFile a b c (fl + 1) d e g) = true).
  { intros. apply stopped_true. cbn. lia. }
  rewrite Hst. cbn [mbind outcome_bind wg_Wait wg set_reader reader].
  destruct (_ && _).
  - unfold RemoveFromEvictList. cbn [memEle].
    destruct me; do 2 eexists; (split; [reflexivity|]); done.
  - do 2 eexists. split; [reflexivity|]. done.
Qed.

(** [Remove] on a file whose counter is not 1 only moves the counters. *)
Lemma Remove_not_last (g : tsspFile) (w : World) :
  min_int32 < ref g <= max_int32 -> ref g ≠ 1 ->
  Remove g w
  = Ret (None, set_ref (set_flag g (atomic_AddUint32 (flag g) 1)) (ref g - 1), w).
Proof.
  intros Hr Hne. unfold Remove. cbn [ref set_ref set_flag].
  rewrite atomic_AddInt32_exact by word_bounds.
  replace (ref g + -1) with (ref g - 1) by lia.
  destruct (Z.eqb_spec (ref g - 1) 0); [lia|]. done.
Qed.

(** X12.  A file closed while idle is never unlinked by a later [Remove]:
    [Close] has already released the set's reference, so [Remove]'s
    decrement leaves the counter at -1, not 0, and returns nil without
    reaching the file system. *)
Theorem Remove_after_Close_never_unlinks (f : tsspFile) (w : World) :
  0 <= flag f < 2 ^ 32 - 1 ->
  ref f = 1 -> wg f = 0%nat ->
  exists f1 w1 f2,
    Close f w = Ret (None, f1, w1) /\
    Remove f1 w1 = Ret (None, f2, w1) /\
    ref f2 = -1 /\
    removals w1 = removals w /\ disk w1 = disk w.
Proof.
  intros Hfl Href Hwg.
  destruct (Close_idle f w Hfl Href Hwg) as (f1 & w1 & HC & Hr1 & _ & Hrem & Hd).
  exists f1, w1. eexists. split; [exact HC|].
  split; [apply Remove_not_last; rewrite Hr1; [word_bounds|lia]|].
  cbn. rewrite Hr1. done.
Qed.

(** ** Every call at once *)

(** Closes a goal [counters_inv] from the invariant one call earlier. *)
Ltac inv_done :=
  unfold min_int32, max_int32 in *;
  match goal with
  | Hc : _ \/ _ |- _ =>
      destruct Hc as [[? ?]|(? & ? & ?)];
      (split; [lia|]); (split; [lia|]);
      first [ left; split; [lia|congruence]
            | right; split; [lia|]; split; [lia|];
              cbn [length]; first [lia | subst; cbn [length]; lia] ]
  end.

Lemma counters_inv_step (c : call) (n : nat) (base : list string)
    (s s' : tsspFile * World) :
  counters_inv (S n) base s -> exec_call c s = Ret s' -> counters_inv n base s'.
Proof.
  destruct s as [f w]. destruct f as [wg0 nm rf fl lk0 me rd].
  unfold counters_inv. cbn [fst snd ref flag].
  intros (Hr & Hf & Hcases) Hex.
  assert (Hinc : atomic_AddInt32 rf 1 = rf + 1)
    by (apply atomic_AddInt32_exact; word_bounds).
  assert (Hdec : atomic_AddInt32 rf (-1) = rf - 1)
    by (apply atomic_AddInt32_exact; word_bounds).
  assert (Hfinc : atomic_AddUint32 fl 1 = fl + 1)
    by (apply atomic_AddUint32_exact; word_bounds).
  assert (Hstop : forall a b c d e g v,
             stopped (mkFile a b c v d e g) = (v >? 0)) by done.
  destruct c; cbn [exec_call fst snd] in Hex.
  - (* Ref *)
    unfold Ref in Hex. rewrite Hstop in Hex.
    destruct (Z.gtb_spec fl 0) as [Hpos|Hnp]; cbn in Hex.
    + injection Hex as <-. cbn; inv_done.
    + rewrite Hinc in Hex. injection Hex as <-. cbn; inv_done.
  - (* Unref *)
    unfold Unref, set_ref in Hex. cbn [ref wg name flag lock memEle reader] in Hex.
    rewrite Hdec, Hstop in Hex.
    destruct (Z.leb_spec (rf - 1) 0) as [Hle|Hgt].
    + destruct (Z.gtb_spec fl 0) as [Hpos|Hnp]; cbn in Hex; [|done].
      injection Hex as <-. cbn; inv_done.
    + unfold wg_Done in Hex. cbn [wg] in Hex.
      destruct wg0; cbn in Hex; [done|]. injection Hex as <-. cbn; inv_done.
  - (* Stop *)
    injection Hex as <-. unfold Stop. cbn. rewrite Hfinc. inv_done.
  - (* Close *)
    unfold Close, Stop, Unref, set_flag, set_ref in Hex.
    cbn [ref wg name flag lock memEle reader] in Hex.
    rewrite Hfinc, Hdec, Hstop in Hex.
    destruct (Z.gtb_spec (fl + 1) 0) as [_|?]; [|lia].
    destruct (Z.leb_spec (rf - 1) 0) as [Hle|Hgt].
    + cbn [mbind outcome_bind wg_Wait wg] in Hex.
      destruct wg0; cbn [mbind outcome_bind] in Hex; [|done].
      destruct (_ && _); cbn in Hex.
      * unfold RemoveFromEvictList in Hex. cbn in Hex.
        destruct me; cbn in Hex; injection Hex as <-; cbn; inv_done.
      * injection Hex as <-. cbn; inv_done.
    + unfold wg_Done in Hex. cbn [wg] in Hex.
      destruct wg0 as [|[|wg1]]; cbn [mbind outcome_bind wg_Wait wg set_wg] in Hex;
        try done.
      destruct (_ && _); cbn in Hex.
      * unfold RemoveFromEvictList in Hex. cbn in Hex.
        destruct me; cbn in Hex; injection Hex as <-; cbn; inv_done.
      * injection Hex as <-. cbn; inv_done.
  - (* Remove *)
    unfold Remove, set_flag, set_ref in Hex.
    cbn [ref wg name flag lock memEle reader] in Hex.
    rewrite Hfinc, Hdec in Hex.
    destruct (Z.eqb_spec (rf - 1) 0) as [Hz|Hnz].
    + destruct wg0; cbn [mbind outcome_bind wg_Wait wg] in Hex; [|done].
      unfold deref_lock in Hex. cbn [lock set_reader] in Hex.
      destruct lk0 as [lk|]; cbn [mbind outcome_bind] in Hex; [|done].
      cbn [reader name] in Hex.
      destruct (fileops_Remove (disk w) (reader_Path rd) lk) as [d' oe].
      assert (Hbase : removals w = base) by (destruct Hcases as [[_ ?]|[? _]]; [done|lia]).
      destruct oe as [e|]; [destruct (os_IsNotExist e)|];
        cbn [negb mbind outcome_bind] in Hex;
        rewrite ?Remove_evict_spec in Hex;
        try destruct (reader_InMemSize rd >? 0);
        cbn in Hex; injection Hex as <-; cbn; rewrite ?Hbase; inv_done.
    + cbn in Hex. injection Hex as <-. cbn; inv_done.
Qed.

(** X13.  Whatever calls of [Ref], [Unref], [Stop], [Close] and [Remove]
    are made on a file that starts with a positive counter, in whatever
    order and number, a run that completes has asked the file system to
    unlink at most once. *)
Theorem unlink_at_most_once (cs : list call) (f : tsspFile) (w : World)
    (s' : tsspFile * World) :
  1 <= ref f -> ref f + Z.of_nat (length cs) <= max_int32 ->
  0 <= flag f -> flag f + Z.of_nat (length cs) < 2 ^ 32 ->
  Z.of_nat (length cs) < 2 ^ 31 ->
  run_calls cs (f, w) = Ret s' ->
  (length (removals s'.2) <= S (length (removals w)))%nat.
Proof.
  intros Hr1 Hr2 Hf1 Hf2 Hlen Hrun.
  assert (Hinv : counters_inv (length cs) (removals w) (f, w)).
  { unfold counters_inv. cbn [fst snd]. unfold min_int32, max_int32 in *.
    split; [lia|]. split; [lia|]. left. by split. }
  clear Hr1 Hr2 Hf1 Hf2 Hlen.
  generalize dependent (f, w). generalize (removals w) as base.
  induction cs as [|c cs IH]; intros base s Hrun Hinv.
  - cbn in Hrun. injection Hrun as <-.
    destruct Hinv as (_ & _ & [[_ ->]|(_ & _ & ?)]); lia.
  - cbn [run_calls] in Hrun.
    destruct (exec_call c s) as [s1| |] eqn:Hex; cbn in Hrun; try done.
    apply (IH base s1 Hrun). by apply (counters_inv_step c _ _ s).
Qed.

(** ** Cached bytes *)

(** X14.  [Free] on a file that readers still use frees nothing: it
    returns 0, leaves the reader alone and queues the file for the
    background collector; yet it takes the file off the eviction list all
    the same.  On an idle file it returns what the reader freed, subtracts
    that from the level's counters, and takes the file off the list. *)
Theorem Free_outcome (f : tsspFile) (evictLock : bool) (reg : Registry)
    (q : GCQueue) :
  let level := TSSPFileName.level (name f) in
  let order := TSSPFileName.order (name f) in
  (Inuse f = true ->
   exists f',
     Free f evictLock reg q
     = (0, f', accounted reg level 0 order (memEle f),
        nodeTableStoreGC_Add q true f) /\
     reader f' = reader f /\ memEle f' = None /\
     ref f' = ref f /\ wg f' = wg f /\ flag f' = flag f) /\
  (Inuse f = false ->
   exists f',
     Free f evictLock reg q
     = ((reader_FreeMemory (reader f)).1, f',
        accounted reg level (reader_FreeMemory (reader f)).1 order (memEle f),
        q) /\
     reader f' = (reader_FreeMemory (reader f)).2 /\ memEle f' = None /\
     ref f' = ref f /\ wg f' = wg f /\ flag f' = flag f).
Proof.
  destruct f as [wg0 nm rf fl lk0 me rd]. cbv zeta.
  unfold Free, FreeMemory, accounted, RemoveFromEvictList,
    RemoveFromEvictListUnSafe.
  cbn [reader name memEle ref wg flag].
  split; intros Hin; rewrite Hin.
  - destruct evictLock, me; eexists; (split; [reflexivity|]); done.
  - destruct (reader_FreeMemory rd) as [size r].
    destruct evictLock, me; eexists; (split; [reflexivity|]); done.
Qed.

(** X15.  [LoadIntoMemory] succeeds only on a file that is on no eviction
    list, and puts it on one.  A second [LoadIntoMemory], once the reader
    has loaded again, traps with "memEle need to nil". *)
Theorem LoadIntoMemory_twice_traps (f f' : tsspFile) (reg reg' : Registry) :
  LoadIntoMemory f reg = Ret (None, f', reg') ->
  memEle f = None /\
  (exists e, memEle f' = Some e) /\
  reader f' = (reader_LoadIntoMemory (reader f)).2 /\
  ((reader_LoadIntoMemory (reader f')).1 = None ->
   LoadIntoMemory f' reg' = Panic "memEle need to nil").
Proof.
  unfold LoadIntoMemory, AddToEvictList.
  destruct (reader_LoadIntoMemory (reader f)) as [[e|] r] eqn:Hload;
    [done|].
  cbn [memEle set_reader].
  destruct (memEle f) eqn:Hme; [done|].
  destruct (list_PushFront _ _ _) as [reg1 e1].
  cbn [mbind outcome_bind fst snd]. intros [= <- <-].
  cbn [memEle reader set_memEle set_reader fst snd].
  split; [done|]. split; [by eexists|]. split; [done|].
  destruct (reader_LoadIntoMemory r) as [[e|] r2]; cbn [fst]; [done|].
  intros _. reflexivity.
Qed.

End FileMoreFacts.

(** * The compact-group pool *)

(** X16.  On a new pool object, [NewCompactGroup] gives a group of
    [count] empty names when [count] is between 0 and 8, with the name and
    level asked for, shard 0 and no drop flag; any other [count] traps on
    the slice bound. *)
Theorem NewCompactGroup_fresh (name_ : string) (toLevle count : Z) :
  (0 <= count <= 8 ->
   exists g,
     CompactGroup.NewCompactGroup_on CompactGroup.pool_New name_ toLevle count
     = Ret g /\
     CompactGroup.name g = name_ /\ CompactGroup.toLevel g = toLevle /\
     CompactGroup.shardId g = 0 /\ CompactGroup.dropping g = None /\
     CompactGroup.elems (CompactGroup.group g)
     = replicate (Z.to_nat count) "" /\
     CompactGroup.cap (CompactGroup.group g) = 8%nat) /\
  (count < 0 \/ 8 < count ->
   CompactGroup.NewCompactGroup_on CompactGroup.pool_New name_ toLevle count
   = Panic "slice bounds out of range").
Proof.
  unfold CompactGroup.NewCompactGroup_on, CompactGroup.upto.
  cbn [CompactGroup.pool_New CompactGroup.group
       CompactGroup.shardId CompactGroup.dropping].
  change (Z.of_nat (CompactGroup.cap (CompactGroup.make 8))) with 8.
  split; intros Hc.
  - destruct (Z.ltb_spec count 0); [lia|].
    destruct (Z.gtb_spec count 8); [lia|]. cbn [orb mbind outcome_bind].
    eexists. split; [reflexivity|].
    cbn [CompactGroup.name CompactGroup.toLevel CompactGroup.shardId
         CompactGroup.dropping CompactGroup.group].
    repeat split. unfold CompactGroup.elems, CompactGroup.make.
    cbn [CompactGroup.backing CompactGroup.len].
    rewrite take_replicate. f_equal. lia.
  - destruct (Z.ltb_spec count 0); [done|].
    destruct (Z.gtb_spec count 8); [done|lia].
Qed.

(** X17.  [release] resets the fields of a group but keeps its array, so
    when the pool hands a released group out again, [NewCompactGroup]
    shows the names the array still holds: for [count] within the old
    length, the first [count] names of the released group.  A [count]
    beyond the capacity of the recycled array traps. *)
Theorem NewCompactGroup_recycled (g : CompactGroup.t)
    (name_ : string) (toLevle count : Z) :
  (0 <= count <= Z.of_nat (CompactGroup.cap (CompactGroup.group g)) ->
   exists g',
     CompactGroup.NewCompactGroup_on (CompactGroup.release g)
       name_ toLevle count = Ret g' /\
     CompactGroup.name g' = name_ /\ CompactGroup.toLevel g' = toLevle /\
     CompactGroup.shardId g' = 0 /\ CompactGroup.dropping g' = None /\
     CompactGroup.cap (CompactGroup.group g')
     = CompactGroup.cap (CompactGroup.group g) /\
     CompactGroup.elems (CompactGroup.group g')
     = take (Z.to_nat count) (CompactGroup.backing (CompactGroup.group g)) /\
     (count <= Z.of_nat (CompactGroup.len (CompactGroup.group g)) ->
      CompactGroup.elems (CompactGroup.group g')
      = take (Z.to_nat count) (CompactGroup.elems (CompactGroup.group g)))) /\
  (count < 0 \/ Z.of_nat (CompactGroup.cap (CompactGroup.group g)) < count ->
   CompactGroup.NewCompactGroup_on (CompactGroup.release g)
     name_ toLevle count = Panic "slice bounds out of range").
Proof.
  unfold CompactGroup.NewCompactGroup_on, CompactGroup.release,
    CompactGroup.reset, CompactGroup.upto, CompactGroup.cap.
  cbn [CompactGroup.group CompactGroup.backing CompactGroup.shardId
       CompactGroup.dropping].
  split; intros Hc.
  - destruct (Z.ltb_spec count 0); [lia|].
    destruct (Z.gtb_spec count (Z.of_nat (length (CompactGroup.backing
                                                    (CompactGroup.group g)))));
      [lia|].
    cbn [orb mbind outcome_bind]. eexists. split; [reflexivity|].
    cbn. repeat split. intros Hlen. unfold CompactGroup.elems. cbn.
    rewrite take_take. f_equal. lia.
  - destruct (Z.ltb_spec count 0); [done|].
    destruct (Z.gtb_spec count (Z.of_nat (length (CompactGroup.backing
                                                    (CompactGroup.group g)))));
      [done|lia].
Qed.

(** * Measurement metadata *)

Lemma GetShardKey_from_spec (keys : list Meta.ShardKeyInfo) (ID : Z) (i : nat) :
  (i < length keys)%nat ->
  exists r,
    Meta.GetShardKey_from keys ID i = Ret r /\
    match r with
    | Some k =>
        (k <= i)%nat /\
        exists sk, keys !! k = Some sk /\ Meta.ShardGroup sk <= ID /\
          forall (j : nat) (sk' : Meta.ShardKeyInfo),
            (k < j <= i)%nat -> keys !! j = Some sk' ->
            ID < Meta.ShardGroup sk'
    | None =>
        forall (j : nat) (sk' : Meta.ShardKeyInfo),
          (j <= i)%nat -> keys !! j = Some sk' -> ID < Meta.ShardGroup sk'
    end.
Proof.
  induction i as [|i IH]; intros Hi.
  all: destruct (lookup_lt_is_Some_2 keys _ Hi) as [sk Hsk].
  all: cbn [Meta.GetShardKey_from]; rewrite (index_lookup _ _ _ Hsk).
  all: cbn [mbind outcome_bind].
  all: destruct (Z.leb_spec (Meta.ShardGroup sk) ID) as [Hle|Hgt].
  - exists (Some 0%nat). split; [done|]. split; [lia|].
    exists sk. repeat split; try done. intros; lia.
  - exists None. split; [done|]. intros j sk' Hj Hsk'.
    assert (j = 0%nat) as -> by lia. congruence.
  - exists (Some (S i)). split; [done|]. split; [lia|].
    exists sk. repeat split; try done. intros; lia.
  - destruct IH as (r & -> & Hr); [lia|]. exists r. split; [done|].
    destruct r as [k|].
    + destruct Hr as (Hk & sk0 & Hsk0 & Hle0 & Hafter). split; [lia|].
      exists sk0. repeat split; try done. intros j sk' Hj Hsk'.
      destruct (decide (j = S i)) as [->|Hne]; [congruence|].
      apply (Hafter j); [lia|done].
    + intros j sk' Hj Hsk'.
      destruct (decide (j = S i)) as [->|Hne]; [congruence|].
      apply (Hr j); [lia|done].
Qed.

(** X18.  [GetShardKey] returns the last shard key whose shard group does
    not exceed [ID]: every key after it starts at a later shard group.  It
    returns nil exactly when every key starts after [ID], in particular
    when there is none. *)
Theorem GetShardKey_last_not_above (keys : list Meta.ShardKeyInfo) (ID : Z) :
  exists r,
    Meta.GetShardKey keys ID = Ret r /\
    match r with
    | Some k =>
        exists sk, keys !! k = Some sk /\ Meta.ShardGroup sk <= ID /\
          forall (j : nat) (sk' : Meta.ShardKeyInfo),
            (k < j)%nat -> keys !! j = Some sk' -> ID < Meta.ShardGroup sk'
    | None =>
        forall sk' : Meta.ShardKeyInfo, sk' ∈ keys -> ID < Meta.ShardGroup sk'
    end.
Proof.
  unfold Meta.GetShardKey.
  destruct (Z.geb_spec (Z.of_nat (length keys) - 1) 0) as [Hne|Hemp].
  - destruct (GetShardKey_from_spec keys ID
                (Z.to_nat (Z.of_nat (length keys) - 1)))
      as (r & -> & Hr); [lia|].
    exists r. split; [done|]. destruct r as [k|].
    + destruct Hr as (_ & sk & Hsk & Hle & Hafter).
      exists sk. repeat split; try done. intros j sk' Hj Hsk'.
      apply (Hafter j); [|done]. apply lookup_lt_Some in Hsk'. lia.
    + intros sk' [j Hj]%list_elem_of_lookup. apply (Hr j); [|done].
      apply lookup_lt_Some in Hj. lia.
  - exists None. split; [done|].
    destruct keys; [|cbn in Hemp; lia].
    intros sk' Hin. by apply not_elem_of_nil in Hin.
Qed.

Lemma EqualsToAnother_loop_spec (keys : list string) :
  forall (pre rest : list string),
  length keys = length rest ->
  Meta.EqualsToAnother_loop keys (pre ++ rest) (Z.of_nat (length pre))
  = Ret (bool_decide (keys = rest)).
Proof.
  induction keys as [|k keys IH]; intros pre rest Hlen.
  - destruct rest; [|done]. done.
  - destruct rest as [|o rest]; [done|]. cbn [Meta.EqualsToAnother_loop].
    rewrite (index_lookup _ _ o)
      by (by rewrite lookup_app_r, Nat.sub_diag by lia).
    cbn [mbind outcome_bind].
    destruct (String.eqb_spec k o) as [->|Hne]; cbn [negb].
    + replace (Z.of_nat (length pre) + 1) with (Z.of_nat (length (pre ++ [o])))
        by (rewrite length_app; cbn; lia).
      replace (pre ++ o :: rest) with ((pre ++ [o]) ++ rest)
        by (by rewrite <- app_assoc).
      rewrite IH by (cbn in Hlen; lia). f_equal.
      apply bool_decide_ext. split; [by intros ->|by intros [= ->]].
    + f_equal. symmetry. apply bool_decide_eq_false. by intros [= ? ?].
Qed.

(** X19.  [EqualsToAnother] never traps, and answers true exactly when
    the two shard keys list the same columns in the same order and have
    the same type; the shard group plays no part. *)
Theorem EqualsToAnother_iff (ski other : Meta.ShardKeyInfo) :
  exists b,
    Meta.EqualsToAnother ski other = Ret b /\
    (b = true <->
     Meta.ShardKey ski = Meta.ShardKey other /\
     Meta.Type_ ski = Meta.Type_ other).
Proof.
  unfold Meta.EqualsToAnother.
  destruct (Z.eqb_spec (Z.of_nat (length (Meta.ShardKey ski)))
              (Z.of_nat (length (Meta.ShardKey other)))) as [Hlen|Hlen];
    cbn [negb].
  2:{ exists false. split; [done|]. split; [done|]. intros [Hk _].
      rewrite Hk in Hlen. done. }
  destruct (String.eqb_spec (Meta.Type_ ski) (Meta.Type_ other)) as [Ht|Ht];
    cbn [negb].
  2:{ exists false. split; [done|]. split; [done|]. by intros [_ ?]. }
  pose proof (EqualsToAnother_loop_spec (Meta.ShardKey ski) []
                (Meta.ShardKey other) ltac:(lia)) as Hloop.
  cbn [app length] in Hloop. change (Z.of_nat 0) with 0 in Hloop.
  rewrite Hloop.
  eexists. split; [reflexivity|]. rewrite bool_decide_eq_true. by split; [|intros []].
Qed.

(** * The rest of the file, on concrete inputs *)

Import Sim SimMore.

(** Two extents of sequence 1, then sequence 2. *)
Lemma Less_strict_order_witness :
  let a := Sim.file "0001-0-0-0.tssp" 1 0 0 in
  let b := Sim.file "0001-0-0-1.tssp" 1 0 1 in
  let c := Sim.file "0002-0-0-0.tssp" 2 0 0 in
  let set := Sim.set_of [a; b; c] in
  Less set 0 0 = Ret false /\ Less set 1 0 = Ret false /\
  Less set 0 2 = Ret true.
Proof.
  intros a b c set.
  destruct (Less_strict_order set 0 1 2 a b c eq_refl eq_refl eq_refl)
    as (Hirr & Hasym & Htrans & _).
  split; [exact Hirr|]. split; [apply Hasym; reflexivity|].
  apply Htrans; reflexivity.
Defined.

(** Deleting the second extent of sequence 1. *)
Lemma deleteFile_member_witness :
  let a := Sim.file "0001-0-0-0.tssp" 1 0 0 in
  let b := Sim.file "0001-0-0-1.tssp" 1 0 1 in
  let c := Sim.file "0002-0-0-0.tssp" 2 0 0 in
  let set := Sim.set_of [a; b; c] in
  exists f',
    deleteFile set b = Ret f' /\
    files f' = delete 1%nat (files set) /\
    Len f' = Len set - 1 /\
    files_ref f' = files_ref set /\ closing f' = closing set /\
    sort_IsSorted f' = Ret true /\
    NoDup (Path <$> files f') /\
    fileIndex f' b = Ret (-1).
Proof.
  intros a b c set. apply (deleteFile_member set 1 b).
  - reflexivity.
  - apply (bool_decide_unpack _). vm_compute. exact I.
  - reflexivity.
Defined.

(** A third extent of sequence 1 that was never added: the search ends
    among the two extents of that sequence, whose paths differ from its
    own. *)
Lemma deleteFile_absent_traps_witness :
  let a := Sim.file "0001-0-0-0.tssp" 1 0 0 in
  let b := Sim.file "0001-0-0-1.tssp" 1 0 1 in
  let c := Sim.file "0002-0-0-0.tssp" 2 0 0 in
  let d := Sim.file "0001-0-0-2.tssp" 1 0 2 in
  deleteFile (Sim.set_of [a; b; c]) d = Panic "file not file, 0001-0-0-2.tssp".
Proof.
  intros a b c d. apply (deleteFile_absent_traps (Sim.set_of [a; b; c]) d).
  apply (bool_decide_unpack _). vm_compute. exact I.
Defined.

(** A compaction output of sequence 2 joins two extents of sequence 1. *)
Lemma Append_then_lookup_delete_witness :
  let a := Sim.file "0001-0-0-0.tssp" 1 0 0 in
  let b := Sim.file "0001-0-0-1.tssp" 1 0 1 in
  let c := Sim.file "0002-0-0-0.tssp" 2 0 0 in
  let set := Sim.set_of [a; b] in
  sort_IsSorted (Append set c) = Ret true /\
  NoDup (Path <$> files (Append set c)) /\
  fileIndex (Append set c) c = Ret 2 /\
  deleteFile (Append set c) c = Ret set.
Proof.
  intros a b c set. apply (Append_then_lookup_delete set c).
  - reflexivity.
  - apply (bool_decide_unpack _). vm_compute. exact I.
  - apply (bool_decide_unpack _). vm_compute. exact I.
  - intros l [= <-]. reflexivity.
Defined.

(** Exchanging the first and the last of three files. *)
Lemma Swap_exchanges_witness :
  let a := Sim.file "0001-0-0-0.tssp" 1 0 0 in
  let b := Sim.file "0001-0-0-1.tssp" 1 0 1 in
  let c := Sim.file "0002-0-0-0.tssp" 2 0 0 in
  let set := Sim.set_of [a; b; c] in
  let set' := Sim.set_of [c; b; a] in
  files set' !! 0%nat = files set !! 2%nat /\
  files set' !! 2%nat = files set !! 0%nat /\
  files set' ≡ₚ files set /\
  Swap set' 0 2 = Ret set /\
  fullCompacted set' = fullCompacted set.
Proof.
  intros a b c set set'. apply (Swap_exchanges set set' 0 2). reflexivity.
Defined.

(** Three extents of one logical file lose the middle one; the two that
    are left are compared by the loop. *)
Lemma fullCompacted_deleteFile_witness :
  let a := Sim.file "0005-3-0-0.tssp" 5 3 0 in
  let b := Sim.file "0005-3-0-1.tssp" 5 3 1 in
  let c := Sim.file "0005-3-0-2.tssp" 5 3 2 in
  fullCompacted (Sim.set_of [a; c]) = true.
Proof.
  intros a b c.
  apply (fullCompacted_deleteFile (Sim.set_of [a; b; c]) (Sim.set_of [a; c]) b);
    reflexivity.
Defined.

(** Stopping a set of three open files. *)
Lemma StopFiles_stops_all_witness :
  let a := Sim.file "0001-0-0-0.tssp" 1 0 0 in
  let b := Sim.file "0001-0-0-1.tssp" 1 0 1 in
  let c := Sim.file "0002-0-0-0.tssp" 2 0 0 in
  let set := Sim.set_of [a; b; c] in
  Forall (fun x => stopped x = true /\ Path x = "" /\ Name x = "")
    (files (StopFiles set)) /\
  Len (StopFiles set) = Len set /\
  sort_IsSorted (StopFiles set) = sort_IsSorted set /\
  fullCompacted (StopFiles set) = fullCompacted set /\
  closing (StopFiles set) = closing set + 1.
Proof.
  intros a b c set. apply (StopFiles_stops_all set).
  - unfold set, Sim.set_of. cbn [files].
    repeat (apply Forall_cons; split; [cbn; lia|]). by apply Forall_nil.
  - cbn. lia.
Defined.

(** After [StopFiles], a stopped file that was never in the set is found
    in it, and deleting it removes a member. *)
Lemma fileIndex_stopped_set_witness :
  let a := Sim.file "0001-0-0-0.tssp" 1 0 0 in
  let b := Sim.file "0001-0-0-1.tssp" 1 0 1 in
  let d := Sim.file "0009-0-0-0.tssp" 9 0 0 in
  let set := StopFiles (Sim.set_of [a; b]) in
  exists i : nat,
    (i < length (files set))%nat /\
    fileIndex set (Stop d) = Ret (Z.of_nat i) /\
    deleteFile set (Stop d)
    = Ret (mkFiles (files_ref set) (closing set) (delete i (files set))).
Proof.
  intros a b d set. apply (fileIndex_stopped_set set (Stop d)).
  - discriminate.
  - unfold set, Sim.set_of, StopFiles. cbn [files fmap list_fmap].
    repeat (apply Forall_cons; split; [reflexivity|]). by apply Forall_nil.
  - reflexivity.
Defined.

(** A read of the data section inside [FileOperation]. *)
Lemma FileOperation_balanced_witness :
  let f := Sim.file "0001-0-0-0.tssp" 1 0 0 in
  let op := fun g : tsspFile => r ← ReadData g 0 16 []; Ret r.2 in
  exists f',
    FileOperation f (Some op) = Ret f' /\
    ref f' = ref f /\ wg f' = wg f /\ flag f' = flag f.
Proof.
  intros f op.
  destruct (FileOperation_balanced f
              (set_reader (wg_Add1 (set_ref f 2))
                 (Sim.called (Sim.called (reader f)))) op)
    as (f' & Hrun & Hr & Hw & Hfl & _); try reflexivity.
  - cbn. unfold max_int32. lia.
  - exists f'. done.
Defined.

(** The same on a file stopped by its set: the counter falls to 0. *)
Lemma FileOperation_stopped_unbalanced_witness :
  let f := Stop (Sim.file "0001-0-0-0.tssp" 1 0 0) in
  FileOperation f (Some (fun g => Ret g))
  = Ret (set_ref (set_reader f (reader_Ref (reader f))) 0).
Proof.
  intros f.
  apply (FileOperation_stopped_unbalanced f
           (set_reader f (reader_Ref (reader f))) (fun g => Ret g));
    try reflexivity.
  cbn. unfold min_int32. lia.
Defined.

(** One reader: [Close] returns.  Two readers: it waits. *)
Lemma Close_outcome_witness :
  let w := Sim.world ["0001-0-0-0.tssp"] false (Sim.mkRegistry 0 0 0 []) in
  (exists f' w',
     Close (SimMore.file_in_use "0001-0-0-0.tssp" 1 0 0 1) w
     = Ret (None, f', w') /\
     stopped f' = true /\ ref f' = 1 /\ wg f' = 0%nat /\
     Sim.r_closed (reader f') = true) /\
  Close (SimMore.file_in_use "0001-0-0-0.tssp" 1 0 0 2) w = Blocked.
Proof.
  intros w. split.
  - destruct (proj1 (Close_outcome
                       (SimMore.file_in_use "0001-0-0-0.tssp" 1 0 0 1) w 1
                       ltac:(cbn; lia) eq_refl eq_refl
                       ltac:(unfold max_int32; lia)) ltac:(lia))
      as (f' & w' & HC & Hs & Hr & Hw & Hrd & _).
    exists f', w'. repeat split; try done. by rewrite Hrd.
  - apply (proj2 (Close_outcome
                    (SimMore.file_in_use "0001-0-0-0.tssp" 1 0 0 2) w 2
                    ltac:(cbn; lia) eq_refl eq_refl
                    ltac:(unfold max_int32; lia))). lia.
Defined.

(** [Close], then [Remove]: the file stays on disk. *)
Lemma Remove_after_Close_never_unlinks_witness :
  let f := Sim.file "0001-0-0-0.tssp" 1 0 0 in
  let w := Sim.world ["0001-0-0-0.tssp"] false (Sim.mkRegistry 0 0 0 []) in
  exists f1 w1 f2,
    Close f w = Ret (None, f1, w1) /\
    Remove f1 w1 = Ret (None, f2, w1) /\
    ref f2 = -1 /\
    removals w1 = removals w /\ disk w1 = disk w.
Proof.
  intros f w. apply (Remove_after_Close_never_unlinks f w).
  - cbn. lia.
  - reflexivity.
  - reflexivity.
Defined.

(** Two [Remove]s, a [Close] and an [Unref]: one unlink. *)
Lemma unlink_at_most_once_witness :
  let f := Sim.file "0001-0-0-0.tssp" 1 0 0 in
  let w := Sim.world ["0001-0-0-0.tssp"] false (Sim.mkRegistry 0 0 0 []) in
  let cs := [CRemove; CRemove; CClose; CUnref] in
  exists s',
    run_calls cs (f, w) = Ret s' /\
    (length (removals s'.2) <= S (length (removals w)))%nat.
Proof.
  intros f w cs. eexists. split; [reflexivity|].
  apply (unlink_at_most_once cs f w).
  - cbn. lia.
  - cbn. unfold max_int32. lia.
  - cbn. lia.
  - cbn. lia.
  - cbn. lia.
  - reflexivity.
Defined.

(** A cached file is asked to free its memory, once while one reader
    holds it and once idle. *)
Lemma Free_outcome_witness :
  let f := mkFile 1 (TSSPFileName.mk 1 0 0 0 true) 2 0 (Some "/data/lock")
             (Some 7%nat) (Sim.mkReader "0001-0-0-0.tssp" 4096 false 0) in
  let g := Sim.cached_file "0001-0-0-0.tssp" 1 0 0 4096 7 in
  let reg := Sim.mkRegistry 4096 4096 0 [7%nat] in
  let q : @GCQueue _ _ _ SimMore.sim_runtime_more := [] in
  (exists f',
     Free f true reg q = (0, f', Sim.mkRegistry 4096 4096 0 [],
                          [(true, "0001-0-0-0.tssp")]) /\
     Sim.r_inMem (reader f') = 4096 /\ memEle f' = None) /\
  (exists g',
     Free g false reg q = (4096, g', Sim.mkRegistry 0 0 0 [], []) /\
     Sim.r_inMem (reader g') = 0 /\ memEle g' = None).
Proof.
  intros f g reg q. split.
  - destruct (proj1 (Free_outcome f true reg q) eq_refl)
      as (f' & HF & Hrd & Hme & _).
    exists f'. split; [exact HF|]. split; [by rewrite Hrd|exact Hme].
  - destruct (proj2 (Free_outcome g false reg q) eq_refl)
      as (g' & HF & Hrd & Hme & _).
    exists g'. split; [exact HF|]. split; [by rewrite Hrd|exact Hme].
Defined.

(** Loading the same file twice. *)
Lemma LoadIntoMemory_twice_traps_witness :
  let f := Sim.file "0001-0-0-0.tssp" 1 0 0 in
  let reg := Sim.mkRegistry 0 0 0 [] in
  exists f' reg',
    LoadIntoMemory f reg = Ret (None, f', reg') /\
    LoadIntoMemory f' reg' = Panic "memEle need to nil".
Proof.
  intros f reg. do 2 eexists. split; [reflexivity|].
  refine (proj2 (proj2 (proj2 (LoadIntoMemory_twice_traps f _ reg _ eq_refl))) _).
  reflexivity.
Defined.

(** Three names from a new group; nine do not fit. *)
Lemma NewCompactGroup_fresh_witness :
  (exists g,
     CompactGroup.NewCompactGroup_on CompactGroup.pool_New "cpu_0000" 1 3
     = Ret g /\
     CompactGroup.elems (CompactGroup.group g) = [""; ""; ""]) /\
  CompactGroup.NewCompactGroup_on CompactGroup.pool_New "cpu_0000" 1 9
  = Panic "slice bounds out of range".
Proof.
  split.
  - destruct (proj1 (NewCompactGroup_fresh "cpu_0000" 1 3) ltac:(lia))
      as (g & HN & _ & _ & _ & _ & He & _).
    exists g. split; [exact HN|exact He].
  - apply (proj2 (NewCompactGroup_fresh "cpu_0000" 1 9)). right. lia.
Defined.

(** A released group of two inputs is handed out again. *)
Lemma NewCompactGroup_recycled_witness :
  let g := CompactGroup.mk "cpu_0000" 7 2
             (CompactGroup.mkSlice
                ["0001-0-0-0.tssp"; "0002-0-0-0.tssp"; ""; ""; ""; ""; ""; ""] 2)
             (Some 1) in
  exists g',
    CompactGroup.NewCompactGroup_on (CompactGroup.release g) "mem_0000" 1 2
    = Ret g' /\
    CompactGroup.shardId g' = 0 /\
    CompactGroup.elems (CompactGroup.group g')
    = ["0001-0-0-0.tssp"; "0002-0-0-0.tssp"].
Proof.
  intros g.
  destruct (proj1 (NewCompactGroup_recycled g "mem_0000" 1 2)
              ltac:(cbn; lia))
    as (g' & HN & _ & _ & Hsh & _ & _ & _ & He).
  exists g'. split; [exact HN|]. split; [exact Hsh|].
  rewrite He by (cbn; lia). reflexivity.
Defined.

(** One reader too many releases: the run traps; balanced, it completes. *)
Lemma run_completes_iff_balanced_witness :
  let f0 := Sim.file "0001-0-0-0.tssp" 1 0 0 in
  let w := Sim.world ["0001-0-0-0.tssp"] false (Sim.mkRegistry 0 0 0 []) in
  (exists f',
     run [OpRef; OpRef; OpUnref] (f0, w) = Ret (f', w) /\
     ref f' = 1 + readers [OpRef; OpRef; OpUnref] /\
     Z.of_nat (wg f') = readers [OpRef; OpRef; OpUnref] /\
     stopped f' = false) /\
  run [OpRef; OpUnref; OpUnref] (f0, w) = Panic "file closed".
Proof.
  intros f0 w. split.
  - apply (proj1 (run_completes_iff_balanced (RD := Sim.sim_reader)
                    (TSSPFileName.mk 1 0 0 0 true)
                    (Sim.mkReader "0001-0-0-0.tssp" 0 false 0)
                    (Some "/data/lock") w [OpRef; OpRef; OpUnref]
                    eq_refl eq_refl)).
    reflexivity.
  - apply (proj2 (run_completes_iff_balanced (RD := Sim.sim_reader)
                    (TSSPFileName.mk 1 0 0 0 true)
                    (Sim.mkReader "0001-0-0-0.tssp" 0 false 0)
                    (Some "/data/lock") w [OpRef; OpUnref; OpUnref]
                    eq_refl eq_refl)).
    reflexivity.
Defined.
